(** * pkg/haproxy/types/host.go: the host registry and its change tracker

    A shallow embedding of [Hosts] (the registry with its three maps and
    the ssl-passthrough counter), [Host] (one virtual host with its path
    list) and [PathLink], followed by the properties of the acquire /
    remove / shrink / commit protocol.

    Go pointers [*Host] are addresses into an explicit store of Host
    objects, because the registry's maps alias the same object
    ([items] and [itemsAdd] after an acquire, [itemsDel] after a remove)
    and because [reflect.DeepEqual] and the callers observe identity. *)

From Stdlib Require Import ZArith.
From stdpp Require Import gmap strings list fin_maps sorting.

Local Open Scope string_scope.
Local Open Scope list_scope.

(** ** Data model *)

(** Modelled from the spec: [MatchType] is declared outside host.go ("match:
    MatchType enum"); the code here only stores and compares it. *)
Definition MatchType := string.

(** [PathLink{hostname, path}] *)
Record PathLink := mkPathLink {
  pl_hostname : string;
  pl_path : string;
}.

(** Modelled from the spec: [HostBackend] is declared outside host.go; AddPath
    fills exactly these four fields ("id, namespace, name, port"). *)
Record HostBackend := mkHostBackend {
  hb_ID : string;
  hb_Namespace : string;
  hb_Name : string;
  hb_Port : string;
}.

(** Modelled from the spec: [Backend] is the external backend entity; host.go
    reads these four fields and calls its [AddBackendPath] method, which keeps
    "an independent record of which PathLinks reference it". *)
Record Backend := mkBackend {
  b_ID : string;
  b_Namespace : string;
  b_Name : string;
  b_Port : string;
  b_pathlinks : list PathLink;
}.

Definition AddBackendPath (b : Backend) (link : PathLink) : Backend :=
  {| b_ID := b_ID b; b_Namespace := b_Namespace b; b_Name := b_Name b;
     b_Port := b_Port b; b_pathlinks := b_pathlinks b ++ [link] |}.

(** Modelled from the spec: [HostPath] is declared outside host.go; AddPath
    builds it from these four fields. *)
Record HostPath := mkHostPath {
  hp_Path : string;
  hp_Link : PathLink;
  hp_Match : MatchType;
  hp_Backend : HostBackend;
}.

(** Modelled from the spec: [HostTLSConfig] is declared outside host.go; the
    two fields are the ones read by HasTLS and HasTLSAuth. *)
Record HostTLSConfig := mkHostTLSConfig {
  TLSFilename : string;
  CAHash : string;
}.

(** Modelled from the spec: the [Host] struct is declared outside host.go; the
    fields are those host.go reads or writes.  The back-pointer [hosts *Hosts]
    is not a field of the record: createHost always stores the creating
    registry in it, and every operation below receives that registry as its
    state argument.  [Paths] is a Go slice of [*HostPath]; a HostPath is never
    written after AddPath allocates it, so the list holds the values.  The nil
    slice of a new Host is the empty list (AddPath never leaves an empty
    non-nil slice). *)
Record Host := mkHost {
  Hostname : string;
  Paths : list HostPath;
  TLS : HostTLSConfig;
  VarNamespace : bool;
  sslPassthrough : bool;
}.

Global Instance PathLink_eq_dec : EqDecision PathLink.
Proof. solve_decision. Defined.
Global Instance HostBackend_eq_dec : EqDecision HostBackend.
Proof. solve_decision. Defined.
Global Instance HostPath_eq_dec : EqDecision HostPath.
Proof. solve_decision. Defined.
Global Instance HostTLSConfig_eq_dec : EqDecision HostTLSConfig.
Proof. solve_decision. Defined.
Global Instance Host_eq_dec : EqDecision Host.
Proof. solve_decision. Defined.

(** The zero value of [Host]. *)
Definition zeroHost : Host :=
  {| Hostname := ""; Paths := []; TLS := mkHostTLSConfig "" "";
     VarNamespace := false; sslPassthrough := false |}.
Global Instance Host_inhabited : Inhabited Host := populate zeroHost.

(** A [*Host]: the index of the object in the store. *)
Definition addr := nat.

(** The registry.  The first five fields are those of the Go struct;
    [store] holds the Host objects that createHost has allocated, in
    allocation order. *)
Record Hosts := mkHosts {
  items : gmap string addr;
  itemsAdd : gmap string addr;
  itemsDel : gmap string addr;
  sslPassthroughCount : Z;
  hasCommit : bool;
  store : list Host;
}.

(** Field assignments. *)
Definition set_items (f : gmap string addr → gmap string addr) (h : Hosts) : Hosts :=
  mkHosts (f (items h)) (itemsAdd h) (itemsDel h) (sslPassthroughCount h)
          (hasCommit h) (store h).
Definition set_itemsAdd (f : gmap string addr → gmap string addr) (h : Hosts) : Hosts :=
  mkHosts (items h) (f (itemsAdd h)) (itemsDel h) (sslPassthroughCount h)
          (hasCommit h) (store h).
Definition set_itemsDel (f : gmap string addr → gmap string addr) (h : Hosts) : Hosts :=
  mkHosts (items h) (itemsAdd h) (f (itemsDel h)) (sslPassthroughCount h)
          (hasCommit h) (store h).
Definition set_count (f : Z → Z) (h : Hosts) : Hosts :=
  mkHosts (items h) (itemsAdd h) (itemsDel h) (f (sslPassthroughCount h))
          (hasCommit h) (store h).
Definition set_store (f : list Host → list Host) (h : Hosts) : Hosts :=
  mkHosts (items h) (itemsAdd h) (itemsDel h) (sslPassthroughCount h)
          (hasCommit h) (f (store h)).

(** [*p] for a [p : *Host]. *)
Definition deref (h : Hosts) (p : addr) : Host := store h !!! p.

(** ** Library functions *)

(** Go compares strings byte by byte: [a < b]. *)
Definition str_lt (a b : string) : bool := String.ltb a b.

(** [sort.Slice(x, less)]: library code.  It permutes [x] so that [less]
    holds for no element against an earlier one, and makes no promise on the
    order of elements that [less] does not separate.  The embedding is the
    library's insertion sort (the one it runs on short slices): each element
    in turn is swapped towards the front while it is [less] than its left
    neighbour.  The sorted prefix is kept reversed, its last element first. *)
Section sort_Slice.
Context {A : Type} (less : A → A → bool).

Fixpoint sift (x : A) (rprefix : list A) : list A :=
  match rprefix with
  | [] => [x]
  | y :: r => if less x y then y :: sift x r else x :: y :: r
  end.

Definition sort_Slice (l : list A) : list A :=
  reverse (fold_left (λ rprefix x, sift x rprefix) l []).

(** the order of a slice that [sort.SliceIsSorted] accepts: [less] holds
    for no element against its left neighbour *)
Definition ordered : relation A := λ a b, less b a = false.
End sort_Slice.

(** [reflect.DeepEqual(a, b)] on two [*Host]: equal pointers are deeply equal,
    otherwise the pointed-to structs are compared field by field (strings,
    flags, the TLS struct, the path slice element by element through the
    [*HostPath] pointers, and the [hosts] back-pointer, which is the same
    pointer in every Host of one registry). *)
Definition DeepEqual (h : Hosts) (a b : addr) : bool :=
  bool_decide (a = b) || bool_decide (deref h a = deref h b).

(** ** The registry: Hosts *)

(** [CreateHosts] *)
Definition CreateHosts : Hosts :=
  {| items := ∅; itemsAdd := ∅; itemsDel := ∅;
     sslPassthroughCount := 0%Z; hasCommit := false; store := [] |}.

(** [CreatePathLink] *)
Definition CreatePathLink (hostname path : string) : PathLink :=
  {| pl_hostname := hostname; pl_path := path |}.

(** [FindHost]: [h.items[hostname]], nil ([None]) when the key is missing. *)
Definition FindHost (hostname : string) (h : Hosts) : option addr :=
  items h !! hostname.

(** [createHost]: allocates [&Host{Hostname: hostname, hosts: h}]. *)
Definition createHost (hostname : string) (h : Hosts) : Hosts * addr :=
  (set_store (λ st, st ++ [ {| Hostname := hostname; Paths := [];
                               TLS := mkHostTLSConfig "" "";
                               VarNamespace := false;
                               sslPassthrough := false |} ]) h,
   length (store h)).

(** [AcquireHost] *)
Definition AcquireHost (hostname : string) (h : Hosts) : Hosts * addr :=
  match FindHost hostname h with
  | Some host => (h, host)
  | None =>
      let '(h, host) := createHost hostname h in
      let h := set_items <[hostname := host]> h in
      let h := set_itemsAdd <[hostname := host]> h in
      (h, host)
  end.

(** [releaseHost] *)
Definition releaseHost (host : addr) (h : Hosts) : Hosts :=
  if sslPassthrough (deref h host)
  then set_count (λ c, (c - 1)%Z) h
  else h.

(** The body of the loop of [RemoveAll]. *)
Definition removeOne (h : Hosts) (hostname : string) : Hosts :=
  match items h !! hostname with
  | Some item =>
      let h := releaseHost item h in
      let h := set_itemsDel <[hostname := item]> h in
      set_items (delete hostname) h
  | None => h
  end.

(** [RemoveAll] *)
Definition RemoveAll (hostnames : list string) (h : Hosts) : Hosts :=
  fold_left removeOne hostnames h.

(** The body of the loop of [Shrink], for the entry [(name, del)] that the
    range over [itemsDel] produced; [itemsAdd] is read from the current
    state. *)
Definition shrinkOne (h : Hosts) (entry : string * addr) : Hosts :=
  let '(name, del) := entry in
  match itemsAdd h !! name with
  | Some add =>
      if DeepEqual h add del then
        let h := set_items <[name := del]> h in
        let h := set_itemsAdd (delete name) h in
        set_itemsDel (delete name) h
      else h
  | None => h
  end.

(** [Shrink], for a given order in which the range visits the entries of
    [itemsDel].  The loop deletes only the entry it is visiting, so every
    entry present at the start is visited once. *)
Definition ShrinkIn (order : list (string * addr)) (h : Hosts) : Hosts :=
  fold_left shrinkOne order h.

(** [Shrink].  Go leaves the iteration order of a map unspecified;
    [ShrinkIn_order] below shows that the result does not depend on it. *)
Definition Shrink (h : Hosts) : Hosts :=
  ShrinkIn (map_to_list (itemsDel h)) h.

(** [Commit] *)
Definition Commit (h : Hosts) : Hosts :=
  {| items := items h; itemsAdd := ∅; itemsDel := ∅;
     sslPassthroughCount := sslPassthroughCount h;
     hasCommit := true; store := store h |}.

(** [HasCommit] *)
Definition HasCommit (h : Hosts) : bool := hasCommit h.

(** [Changed]: [len(h.itemsAdd) > 0 || len(h.itemsDel) > 0] *)
Definition Changed (h : Hosts) : bool :=
  (0 <? Z.of_nat (size (itemsAdd h)))%Z || (0 <? Z.of_nat (size (itemsDel h)))%Z.

(** [HasSSLPassthrough] *)
Definition HasSSLPassthrough (h : Hosts) : bool :=
  (0 <? sslPassthroughCount h)%Z.

(** [HasVarNamespace] *)
Definition HasVarNamespace (h : Hosts) : bool :=
  existsb (λ e, VarNamespace (deref h e.2)) (map_to_list (items h)).

Section DefaultHost.
(** The constant [DefaultHost] is declared outside host.go. *)
Variable DefaultHost : string.

(** [BuildSortedItems], for a given order in which the range visits the
    entries of [items].  The result is a slice: [None] is nil. *)
Definition BuildSortedItemsIn (order : list (string * addr)) (h : Hosts)
  : option (list addr) :=
  let items :=
    (filter (λ e : string * addr, e.1 ≠ DefaultHost) order).*2 in
  let items :=
    sort_Slice (λ i j, str_lt (Hostname (deref h i)) (Hostname (deref h j)))
               items in
  if (length items =? 0)%nat then None else Some items.

(** [BuildSortedItems] *)
Definition BuildSortedItems (h : Hosts) : option (list addr) :=
  BuildSortedItemsIn (map_to_list (items h)) h.

(** [DefaultHost()] *)
Definition DefaultHostOf (h : Hosts) : option addr := items h !! DefaultHost.
End DefaultHost.

(** ** One virtual host: Host *)

(** [FindPath] *)
Definition FindPath (path : string) (host : Host) : option HostPath :=
  find (λ p, bool_decide (hp_Path p = path)) (Paths host).

(** [AddPath] on the Host value; returns the Host and the backend after the
    call ([backend = None] is the nil pointer). *)
Definition AddPath_host (backend : option Backend) (path : string)
    (match_ : MatchType) (host : Host) : Host * option Backend :=
  let link := CreatePathLink (Hostname host) path in
  let '(hback, backend) :=
    match backend with
    | Some b =>
        ({| hb_ID := b_ID b; hb_Namespace := b_Namespace b;
            hb_Name := b_Name b; hb_Port := b_Port b |},
         Some (AddBackendPath b link))
    | None =>
        ({| hb_ID := "_error404"; hb_Namespace := ""; hb_Name := "";
            hb_Port := "" |}, None)
    end in
  let paths := Paths host ++ [ {| hp_Path := path; hp_Link := link;
                                  hp_Match := match_; hp_Backend := hback |} ] in
  let paths := sort_Slice (λ i j, str_lt (hp_Path j) (hp_Path i)) paths in
  ({| Hostname := Hostname host; Paths := paths; TLS := TLS host;
      VarNamespace := VarNamespace host;
      sslPassthrough := sslPassthrough host |}, backend).

(** [AddPath] through the pointer [p]. *)
Definition AddPath (p : addr) (backend : option Backend) (path : string)
    (match_ : MatchType) (h : Hosts) : Hosts * option Backend :=
  let '(host, backend) := AddPath_host backend path match_ (deref h p) in
  (set_store <[p := host]> h, backend).

(** [HasTLSAuth] *)
Definition HasTLSAuth (host : Host) : bool :=
  negb (bool_decide (CAHash (TLS host) = "")).

(** [SSLPassthrough] *)
Definition SSLPassthrough (host : Host) : bool := sslPassthrough host.

(** [SetSSLPassthrough] through the pointer [p]; the counter is the one of
    the registry that [p.hosts] points to. *)
Definition SetSSLPassthrough (p : addr) (value : bool) (h : Hosts) : Hosts :=
  let host := deref h p in
  if bool_decide (sslPassthrough host = value) then h
  else
    let h := if value then set_count (λ c, (c + 1)%Z) h
             else set_count (λ c, (c - 1)%Z) h in
    set_store <[p := {| Hostname := Hostname host; Paths := Paths host;
                        TLS := TLS host; VarNamespace := VarNamespace host;
                        sslPassthrough := value |}]> h.

(** [HasTLS] *)
Definition HasTLS (t : HostTLSConfig) : bool :=
  negb (bool_decide (TLSFilename t = "")).

(** ** PathLink *)

(** [IsEmpty] *)
Definition IsEmpty (l : PathLink) : bool :=
  bool_decide (pl_hostname l = "") && bool_decide (pl_path l = "").

(** [Less] *)
Definition Less (l other : PathLink) (reversePath : bool) : bool :=
  if bool_decide (pl_hostname l = pl_hostname other) then
    if reversePath then str_lt (pl_path other) (pl_path l)
    else str_lt (pl_path l) (pl_path other)
  else str_lt (pl_hostname l) (pl_hostname other).

(** ** Callers *)

(** A caller writes the exported fields of a Host through the pointer:
    [p.TLS = tls] and [p.VarNamespace = b]. *)
Definition WriteTLS (p : addr) (tls : HostTLSConfig) (h : Hosts) : Hosts :=
  let host := deref h p in
  set_store <[p := {| Hostname := Hostname host; Paths := Paths host;
                      TLS := tls; VarNamespace := VarNamespace host;
                      sslPassthrough := sslPassthrough host |}]> h.

Definition WriteVarNamespace (p : addr) (b : bool) (h : Hosts) : Hosts :=
  let host := deref h p in
  set_store <[p := {| Hostname := Hostname host; Paths := Paths host;
                      TLS := TLS host; VarNamespace := b;
                      sslPassthrough := sslPassthrough host |}]> h.

(** What a caller does to one Host it holds a pointer to. *)
Inductive hostop :=
  | HAddPath (backend : option Backend) (path : string) (match_ : MatchType)
  | HSetSSLPassthrough (value : bool)
  | HWriteTLS (tls : HostTLSConfig)
  | HWriteVarNamespace (b : bool).

Definition hostop_run (p : addr) (h : Hosts) (o : hostop) : Hosts :=
  match o with
  | HAddPath backend path match_ => (AddPath p backend path match_ h).1
  | HSetSSLPassthrough value => SetSSLPassthrough p value h
  | HWriteTLS tls => WriteTLS p tls h
  | HWriteVarNamespace b => WriteVarNamespace p b h
  end.

(** A build of the Host at [p]: a sequence of such calls. *)
Definition build (p : addr) (ops : list hostop) (h : Hosts) : Hosts :=
  fold_left (hostop_run p) ops h.

(** What a caller does to the registry and to the Hosts it got from it. *)
Inductive op :=
  | OpAcquireHost (hostname : string)
  | OpRemoveAll (hostnames : list string)
  | OpShrink
  | OpCommit
  | OpHost (p : addr) (o : hostop).

Definition op_run (h : Hosts) (o : op) : Hosts :=
  match o with
  | OpAcquireHost hostname => (AcquireHost hostname h).1
  | OpRemoveAll hostnames => RemoveAll hostnames h
  | OpShrink => Shrink h
  | OpCommit => Commit h
  | OpHost p o => hostop_run p h o
  end.

Definition run (ops : list op) (h : Hosts) : Hosts := fold_left op_run ops h.

(** The caller's pattern that Shrink is written for: the hostname is removed,
    acquired again, and the new Host is built by [ops]. *)
Definition reparse (x : string) (ops : list hostop) (h : Hosts) : Hosts * addr :=
  let h := RemoveAll [x] h in
  let '(h, p) := AcquireHost x h in
  (build p ops h, p).

(** ** Predicates of the statements *)

(** [a] comes before [b] in a list sorted descending by path string. *)
Definition path_ge (a b : HostPath) : Prop := (hp_Path b ≤ hp_Path a)%string.
(** the same, strictly *)
Definition path_gt (a b : HostPath) : Prop := str_lt (hp_Path b) (hp_Path a) = true.

Definition descending (l : list HostPath) : Prop := StronglySorted path_ge l.
Definition strictly_descending (l : list HostPath) : Prop :=
  StronglySorted path_gt l.

(** The number of hosts in [items] whose [sslPassthrough] flag is true. *)
Definition passthroughHosts (h : Hosts) : nat :=
  length (filter (λ e : string * addr, sslPassthrough (deref h e.2) = true)
                 (map_to_list (items h))).

(** what the registry records under one hostname *)
Definition view (h : Hosts) (k : string) : option addr * option addr * option addr :=
  (items h !! k, itemsAdd h !! k, itemsDel h !! k).

(** the entry that AddPath appends *)
Definition newHostPath (backend : option Backend) (path : string)
    (match_ : MatchType) (host : Host) : HostPath :=
  {| hp_Path := path;
     hp_Link := CreatePathLink (Hostname host) path;
     hp_Match := match_;
     hp_Backend :=
       match backend with
       | Some b => mkHostBackend (b_ID b) (b_Namespace b) (b_Name b) (b_Port b)
       | None => mkHostBackend "_error404" "" "" ""
       end |}.

Definition hostname_le (h : Hosts) (a b : addr) : Prop :=
  (Hostname (deref h a) ≤ Hostname (deref h b))%string.

Definition count_flagged (f : addr → bool) (m : gmap string addr) : nat :=
  length (filter (λ e : string * addr, f e.2 = true) (map_to_list m)).

Definition flag (h : Hosts) (p : addr) : bool := sslPassthrough (deref h p).

Definition bit (b : bool) : nat := if b then 1%nat else 0%nat.

(** the counter is the number of flagged hosts in [items] *)
Definition counter_ok (h : Hosts) : Prop :=
  sslPassthroughCount h = Z.of_nat (passthroughHosts h).

(** [items] binds each hostname to an allocated Host of that name *)
Definition items_wf (h : Hosts) : Prop :=
  ∀ k p, items h !! k = Some p →
         (p < length (store h))%nat ∧ Hostname (deref h p) = k.

(** [itemsDel] holds allocated Hosts *)
Definition del_wf (h : Hosts) : Prop :=
  ∀ k p, itemsDel h !! k = Some p → (p < length (store h))%nat.

Definition registry_ok (h : Hosts) : Prop :=
  counter_ok h ∧ items_wf h ∧ del_wf h.

(** no hostname that this cycle acquired has been removed again: a hostname
    in both change maps is bound in [items] to the Host that was added *)
Definition shrink_guard (h : Hosts) : Prop :=
  ∀ k a, itemsAdd h !! k = Some a → is_Some (itemsDel h !! k) →
         items h !! k = Some a.

(** the calls on which the counter is kept: SetSSLPassthrough on a Host that
    [items] holds, Shrink under [shrink_guard], and every other call *)
Definition admissible (h : Hosts) (o : op) : Prop :=
  match o with
  | OpHost p (HSetSSLPassthrough _) => ∃ k, items h !! k = Some p
  | OpShrink => shrink_guard h
  | _ => True
  end.

Fixpoint admissible_run (ops : list op) (h : Hosts) : Prop :=
  match ops with
  | [] => True
  | o :: ops => admissible h o ∧ admissible_run ops (op_run h o)
  end.

(** a map entry binds a hostname to an allocated Host that carries it *)
Definition entry_ok (h : Hosts) (k : string) (p : addr) : Prop :=
  (p < length (store h))%nat ∧ Hostname (deref h p) = k.

(** all entries of [items], [itemsAdd] and [itemsDel] are such *)
Definition maps_wf (h : Hosts) : Prop :=
  ∀ k p, items h !! k = Some p ∨ itemsAdd h !! k = Some p ∨
         itemsDel h !! k = Some p → entry_ok h k p.

(** every path of the Host carries the link (Hostname, Path) *)
Definition links_ok (host : Host) : Prop :=
  Forall (λ p, hp_Link p = CreatePathLink (Hostname host) (hp_Path p))
         (Paths host).

(** no link is [Less], with reversePath, than the link of an earlier path *)
Definition link_sorted (l : list HostPath) : Prop :=
  StronglySorted (λ a b, Less (hp_Link b) (hp_Link a) true = false) l.

Definition host_ok (host : Host) : Prop :=
  descending (Paths host) ∧ links_ok host ∧ link_sorted (Paths host).

(** [a] is strictly before [b] in the order of Hostname *)
Definition hostname_lt (h : Hosts) (a b : addr) : Prop :=
  str_lt (Hostname (deref h a)) (Hostname (deref h b)) = true.

(** * Properties *)

(** ** Strings *)

Lemma str_lt_le a b : str_lt a b = false ↔ (b ≤ a)%string.
Proof.
  unfold str_lt, String.ltb, String.le, String.leb.
  rewrite (String.compare_antisym a b).
  destruct (String.compare b a); simpl; split; intros H; try done.
Qed.

Lemma str_lt_irrefl a : str_lt a a = false.
Proof. apply str_lt_le. reflexivity. Qed.

Lemma str_lt_asym a b : str_lt a b = true → str_lt b a = false.
Proof.
  unfold str_lt, String.ltb. rewrite (String.compare_antisym b a).
  by destruct (String.compare a b).
Qed.

Lemma str_lt_iff a b : str_lt a b = true ↔ (a ≤ b)%string ∧ a ≠ b.
Proof.
  split.
  - intros H. split.
    + apply str_lt_le. by apply str_lt_asym.
    + intros ->. by rewrite str_lt_irrefl in H.
  - intros [Hle Hne]. destruct (str_lt a b) eqn:E; [done|].
    apply str_lt_le in E. destruct Hne. by apply (anti_symm String.le).
Qed.

(** ** sort.Slice *)

Section sort_Slice_facts.
Context {A : Type} (less : A → A → bool).
Hypothesis less_asym : ∀ a b, less a b = true → less b a = false.

Lemma sift_Permutation x r : sift less x r ≡ₚ x :: r.
Proof.
  induction r as [|y r IH]; simpl; [done|].
  destruct (less x y); [|done].
  rewrite IH. apply Permutation_swap.
Qed.

Lemma sift_HdRel z x r :
  ordered less x z → HdRel (flip (ordered less)) z r → HdRel (flip (ordered less)) z (sift less x r).
Proof.
  intros Hzx Hr. destruct r as [|y r]; simpl.
  - by constructor.
  - destruct (less x y); constructor; [|done].
    by inversion Hr.
Qed.

Lemma sift_Sorted x r :
  Sorted (flip (ordered less)) r → Sorted (flip (ordered less)) (sift less x r).
Proof.
  induction r as [|y r IH]; simpl; intros Hs.
  - repeat constructor.
  - destruct (less x y) eqn:E.
    + inversion Hs; subst. constructor; [by apply IH|].
      apply sift_HdRel; [|done]. unfold ordered. by apply less_asym.
    + constructor; [done|]. by constructor.
Qed.

Lemma sort_Slice_Permutation l : sort_Slice less l ≡ₚ l.
Proof.
  unfold sort_Slice. rewrite reverse_Permutation.
  assert (∀ acc, fold_left (λ r x, sift less x r) l acc ≡ₚ l ++ acc) as H.
  { induction l as [|x l IH]; intros acc; simpl; [done|].
    rewrite IH, sift_Permutation. by rewrite Permutation_middle. }
  by rewrite H, app_nil_r.
Qed.

Lemma sort_Slice_Sorted l : Sorted (ordered less) (sort_Slice less l).
Proof.
  unfold sort_Slice.
  assert (∀ acc, Sorted (flip (ordered less)) acc →
            Sorted (flip (ordered less)) (fold_left (λ r x, sift less x r) l acc)) as H.
  { induction l as [|x l IH]; intros acc Hacc; simpl; [done|].
    apply IH. by apply sift_Sorted. }
  specialize (H [] (Sorted_nil _)).
  apply Sorted_reverse in H. exact H.
Qed.
End sort_Slice_facts.

Lemma Sorted_weaken {A} (R1 R2 : relation A) l :
  (∀ a b, R1 a b → R2 a b) → Sorted R1 l → Sorted R2 l.
Proof.
  intros HR. induction 1 as [|x l Hl IH Hx]; constructor; [done|].
  destruct Hx; constructor. by apply HR.
Qed.

(** ** AddPath *)

Global Instance path_ge_trans : Transitive path_ge.
Proof. intros a b c Hab Hbc. unfold path_ge in *. by etrans. Qed.

Lemma AddPath_host_Paths backend path match_ host :
  Paths (AddPath_host backend path match_ host).1 =
  sort_Slice (λ i j, str_lt (hp_Path j) (hp_Path i))
             (Paths host ++ [newHostPath backend path match_ host]).
Proof. unfold AddPath_host, newHostPath. by destruct backend. Qed.

Lemma AddPath_host_Permutation backend path match_ host :
  Paths (AddPath_host backend path match_ host).1 ≡ₚ
  Paths host ++ [newHostPath backend path match_ host].
Proof. rewrite AddPath_host_Paths. apply sort_Slice_Permutation. Qed.

Lemma AddPath_host_frame backend path match_ host :
  let host' := (AddPath_host backend path match_ host).1 in
  Hostname host' = Hostname host ∧ TLS host' = TLS host ∧
  VarNamespace host' = VarNamespace host ∧
  sslPassthrough host' = sslPassthrough host.
Proof. unfold AddPath_host. by destruct backend. Qed.

Lemma AddPath_host_descending backend path match_ host :
  descending (Paths (AddPath_host backend path match_ host).1).
Proof.
  rewrite AddPath_host_Paths. apply Sorted_StronglySorted; [apply _|].
  eapply Sorted_weaken; [|apply sort_Slice_Sorted].
  - intros a b Hab. unfold ordered in Hab. by apply str_lt_le in Hab.
  - intros a b. apply str_lt_asym.
Qed.

Lemma descending_NoDup_strict l :
  descending l → NoDup (hp_Path <$> l) → strictly_descending l.
Proof.
  unfold descending, strictly_descending.
  induction 1 as [|x l Hl IH Hx]; intros Hnd; [constructor|].
  rewrite fmap_cons in Hnd. apply NoDup_cons in Hnd as [Hnotin Hnd].
  constructor; [by apply IH|].
  rewrite Forall_forall in Hx |- *. intros y Hy.
  apply str_lt_iff. split; [by apply Hx|].
  intros Heq. apply Hnotin. rewrite <- Heq. by apply list_elem_of_fmap_2.
Qed.

Lemma deref_set_store_insert h p host :
  (p < length (store h))%nat → deref (set_store <[p := host]> h) p = host.
Proof.
  intros Hp. unfold deref. simpl.
  apply list_lookup_total_correct. by apply list_lookup_insert_eq.
Qed.

Lemma deref_set_store_insert_ne h p q host :
  p ≠ q → deref (set_store <[p := host]> h) q = deref h q.
Proof.
  intros Hp. unfold deref. simpl. by rewrite list_lookup_total_insert_ne.
Qed.

(** C6, as the code has it: after every AddPath call, on any Host and so
    after any sequence of calls, the path list is sorted descending by path
    string, each path string at least as large as every later one; it holds
    the entries the Host had and the new one, whether or not its path string
    was there already; it is strictly descending when the path strings, the
    new one included, are pairwise distinct.  The same order holds for the
    Host behind a pointer of the registry. *)
Theorem AddPath_sorted_descending (backend : option Backend) (path : string)
    (match_ : MatchType) (host : Host) (h : Hosts) (p : addr) :
  let host' := (AddPath_host backend path match_ host).1 in
  descending (Paths host') ∧
  Paths host' ≡ₚ Paths host ++ [newHostPath backend path match_ host] ∧
  (NoDup (hp_Path <$> Paths host) → path ∉ hp_Path <$> Paths host →
   strictly_descending (Paths host')) ∧
  ((p < length (store h))%nat →
   descending (Paths (deref (AddPath p backend path match_ h).1 p))).
Proof.
  split_and!.
  - apply AddPath_host_descending.
  - apply AddPath_host_Permutation.
  - intros Hnd Hnew. apply descending_NoDup_strict.
    + apply AddPath_host_descending.
    + rewrite AddPath_host_Permutation, fmap_app. simpl.
      rewrite <- Permutation_cons_append. by apply NoDup_cons.
  - intros Hp. unfold AddPath.
    destruct (AddPath_host backend path match_ (deref h p)) as [host1 b1] eqn:E.
    simpl. rewrite deref_set_store_insert by done.
    change host1 with (host1, b1).1. rewrite <- E.
    apply AddPath_host_descending.
Qed.

(** The host "a.com" of a fresh registry after AddPath(nil, "/api"):
    adding "/" to it. *)
Lemma AddPath_sorted_descending_witness :
  let h := (AddPath 0 None "/api" "prefix" (AcquireHost "a.com" CreateHosts).1).1 in
  let host' := (AddPath_host None "/" "prefix" (deref h 0%nat)).1 in
  hp_Path <$> Paths host' = ["/api"; "/"] ∧
  descending (Paths host') ∧ strictly_descending (Paths host') ∧
  descending (Paths (deref (AddPath 0 None "/" "prefix" h).1 0%nat)).
Proof.
  intros h host'.
  destruct (AddPath_sorted_descending None "/" "prefix" (deref h 0%nat) h 0%nat)
    as (H1 & _ & H2 & H3).
  split_and!.
  - reflexivity.
  - exact H1.
  - apply H2.
    + vm_compute. apply NoDup_cons. split; [inversion 1|apply NoDup_nil_2].
    + vm_compute. intros H. apply list_elem_of_In in H. simpl in H.
      destruct H as [H|[]]. discriminate H.
  - apply H3. vm_compute. lia.
Defined.

(** C6, as stated, fails when a path string is added twice: the two entries
    are kept, and neither is strictly before the other. *)
Lemma AddPath_duplicate_not_strict :
  let h0 := (AcquireHost "a.com" CreateHosts).1 in
  let h1 := (AddPath 0 None "/" "prefix" h0).1 in
  let h2 := (AddPath 0 None "/" "prefix" h1).1 in
  hp_Path <$> Paths (deref h2 0%nat) = ["/"; "/"] ∧
  ¬ strictly_descending (Paths (deref h2 0%nat)).
Proof.
  split; [reflexivity|].
  intros H. vm_compute in H.
  apply StronglySorted_inv in H as [_ H].
  apply Forall_inv in H. discriminate H.
Qed.

(** ** Lookups, RemoveAll of unknown names, AddPath without a backend *)

Lemma removeOne_absent h hostname :
  items h !! hostname = None → removeOne h hostname = h.
Proof. intros H. unfold removeOne. by rewrite H. Qed.

Lemma removeOne_view_ne h hostname k :
  hostname ≠ k → view (removeOne h hostname) k = view h k.
Proof.
  intros Hne. unfold removeOne, view, releaseHost.
  destruct (items h !! hostname) as [item|]; [|done].
  destruct (sslPassthrough (deref h item)); simpl;
    by rewrite lookup_delete_ne, lookup_insert_ne.
Qed.

Lemma removeOne_store h hostname : store (removeOne h hostname) = store h.
Proof.
  unfold removeOne, releaseHost.
  destruct (items h !! hostname) as [item|]; [|done].
  by destruct (sslPassthrough (deref h item)).
Qed.

Lemma RemoveAll_store hostnames h : store (RemoveAll hostnames h) = store h.
Proof.
  revert h. induction hostnames as [|n l IH]; intros h; simpl; [done|].
  unfold RemoveAll in IH. by rewrite IH, removeOne_store.
Qed.

Lemma RemoveAll_absent_view hostnames h k :
  items h !! k = None → view (RemoveAll hostnames h) k = view h k.
Proof.
  revert h. induction hostnames as [|n l IH]; intros h Hk; simpl; [done|].
  unfold RemoveAll in IH. destruct (decide (n = k)) as [->|Hne].
  - rewrite removeOne_absent by done. by apply IH.
  - rewrite IH.
    + by apply removeOne_view_ne.
    + pose proof (removeOne_view_ne h n k Hne) as Hv.
      apply (f_equal (λ v, v.1.1)) in Hv. simpl in Hv. by rewrite Hv.
Qed.

Lemma RemoveAll_all_absent hostnames h :
  (∀ n, n ∈ hostnames → items h !! n = None) → RemoveAll hostnames h = h.
Proof.
  revert h. induction hostnames as [|n l IH]; intros h Hall; simpl; [done|].
  rewrite removeOne_absent by (apply Hall, list_elem_of_here).
  apply IH. intros m Hm. by apply Hall, list_elem_of_further.
Qed.

Lemma FindPath_miss path host :
  (∀ p, p ∈ Paths host → hp_Path p ≠ path) → FindPath path host = None.
Proof.
  unfold FindPath. induction (Paths host) as [|q l IH]; intros Hall; simpl; [done|].
  rewrite bool_decide_eq_false_2 by (apply Hall, list_elem_of_here).
  apply IH. intros p Hp. by apply Hall, list_elem_of_further.
Qed.

(** C9: every operation is a total function and none has an error result.
    A miss in FindHost or FindPath is the nil result; RemoveAll leaves what
    the registry records under a hostname that is not in [items] as it was,
    whatever other names the call removes, and leaves the whole registry as
    it was when none of the names is in [items]; AddPath with a nil backend
    appends the path bound to the HostBackend whose ID is "_error404" and
    touches no backend. *)
Theorem absent_is_not_an_error (h : Hosts) (host : Host) (hostname path : string)
    (hostnames : list string) (match_ : MatchType) :
  (items h !! hostname = None →
     FindHost hostname h = None ∧
     RemoveAll [hostname] h = h ∧
     view (RemoveAll hostnames h) hostname = view h hostname ∧
     store (RemoveAll hostnames h) = store h) ∧
  ((∀ n, n ∈ hostnames → items h !! n = None) → RemoveAll hostnames h = h) ∧
  ((∀ p, p ∈ Paths host → hp_Path p ≠ path) → FindPath path host = None) ∧
  (let r := AddPath_host None path match_ host in
   let bound := {| hp_Path := path;
                   hp_Link := CreatePathLink (Hostname host) path;
                   hp_Match := match_;
                   hp_Backend := mkHostBackend "_error404" "" "" "" |} in
   r.2 = None ∧ bound ∈ Paths r.1 ∧ Paths r.1 ≡ₚ Paths host ++ [bound]).
Proof.
  split_and!.
  - intros Habs. split_and!; [done| |by apply RemoveAll_absent_view|
                              apply RemoveAll_store].
    simpl. by apply removeOne_absent.
  - apply RemoveAll_all_absent.
  - apply FindPath_miss.
  - pose proof (AddPath_host_Permutation None path match_ host) as HP.
    simpl. split_and!; [done| |exact HP].
    rewrite HP. apply elem_of_app. right. apply list_elem_of_here.
Qed.

(** The registry holding "a.com" with the path "/api": looking up and
    removing "b.com", looking up "/", adding "/" without a backend. *)
Lemma absent_is_not_an_error_witness :
  let h := (AddPath 0 None "/api" "prefix" (AcquireHost "a.com" CreateHosts).1).1 in
  let host := deref h 0%nat in
  FindHost "b.com" h = None ∧
  RemoveAll ["b.com"] h = h ∧
  view (RemoveAll ["a.com"; "b.com"] h) "b.com" = view h "b.com" ∧
  RemoveAll ["b.com"; "c.com"] h = h ∧
  FindPath "/" host = None ∧
  (hp_Backend <$> FindPath "/" (AddPath_host None "/" "prefix" host).1) =
    Some (mkHostBackend "_error404" "" "" "").
Proof.
  intros h host.
  assert (items h !! "b.com" = None) as Hb by reflexivity.
  assert (items h !! "c.com" = None) as Hc by reflexivity.
  destruct (absent_is_not_an_error h host "b.com" "/" ["a.com"; "b.com"] "prefix")
    as (H1 & _ & H3 & _).
  destruct (absent_is_not_an_error h host "b.com" "/" ["b.com"; "c.com"] "prefix")
    as (_ & H2 & _ & _).
  destruct (H1 Hb) as (F & R & V & _).
  split_and!; [exact F|exact R|exact V| | |reflexivity].
  - apply H2. intros n Hn. apply list_elem_of_In in Hn. simpl in Hn.
    destruct Hn as [<-|[<-|[]]]; assumption.
  - apply H3. intros p Hp. apply list_elem_of_In in Hp.
    vm_compute in Hp. destruct Hp as [<-|[]]. discriminate.
Defined.

(** ** Commit *)

Lemma hostop_run_hasCommit p h o : hasCommit (hostop_run p h o) = hasCommit h.
Proof.
  destruct o as [b path m|v| |]; simpl; try done.
  - unfold AddPath. by destruct (AddPath_host b path m (deref h p)).
  - unfold SetSSLPassthrough. case_bool_decide; [done|]. by destruct v.
Qed.

Lemma shrinkOne_frame h e :
  store (shrinkOne h e) = store h ∧
  sslPassthroughCount (shrinkOne h e) = sslPassthroughCount h ∧
  hasCommit (shrinkOne h e) = hasCommit h.
Proof.
  destruct e as [name del]. unfold shrinkOne.
  destruct (itemsAdd h !! name) as [add|]; [|done].
  by destruct (DeepEqual h add del).
Qed.

Lemma ShrinkIn_frame order h :
  store (ShrinkIn order h) = store h ∧
  sslPassthroughCount (ShrinkIn order h) = sslPassthroughCount h ∧
  hasCommit (ShrinkIn order h) = hasCommit h.
Proof.
  unfold ShrinkIn. revert h.
  induction order as [|e l IH]; intros h; simpl; [done|].
  destruct (IH (shrinkOne h e)) as (-> & -> & ->).
  apply shrinkOne_frame.
Qed.

Lemma RemoveAll_hasCommit hostnames h :
  hasCommit (RemoveAll hostnames h) = hasCommit h.
Proof.
  revert h. induction hostnames as [|n l IH]; intros h; simpl; [done|].
  unfold RemoveAll in IH. rewrite IH. unfold removeOne, releaseHost.
  destruct (items h !! n) as [item|]; [|done].
  by destruct (sslPassthrough (deref h item)).
Qed.

Lemma op_run_hasCommit h o :
  hasCommit h = true → hasCommit (op_run h o) = true.
Proof.
  intros Hc. destruct o as [n|l| | |p o]; simpl.
  - unfold AcquireHost. by destruct (FindHost n h).
  - by rewrite RemoveAll_hasCommit.
  - unfold Shrink. by rewrite (proj2 (proj2 (ShrinkIn_frame _ h))).
  - done.
  - by rewrite hostop_run_hasCommit.
Qed.

Lemma run_hasCommit ops h :
  hasCommit h = true → hasCommit (run ops h) = true.
Proof.
  revert h. induction ops as [|o l IH]; intros h Hc; simpl; [done|].
  apply IH. by apply op_run_hasCommit.
Qed.

(** C8: Commit leaves both change maps empty and HasCommit true, and no
    later operation resets HasCommit.  On a fresh registry: after Commit,
    HasCommit is true; after AcquireHost("x") and Shrink, Changed is true;
    after a second Commit, Changed is false. *)
Theorem Commit_closes_cycle (h : Hosts) (later : list op) :
  itemsAdd (Commit h) = ∅ ∧ itemsDel (Commit h) = ∅ ∧
  HasCommit (Commit h) = true ∧ Changed (Commit h) = false ∧
  HasCommit (run later (Commit h)) = true ∧
  (let h1 := Commit CreateHosts in
   let h2 := (AcquireHost "x" h1).1 in
   let h3 := Shrink h2 in
   let h4 := Commit h3 in
   HasCommit CreateHosts = false ∧ HasCommit h1 = true ∧
   Changed h3 = true ∧ Changed h4 = false).
Proof.
  split_and!; try reflexivity.
  - by apply run_hasCommit.
  - vm_compute. done.
Qed.

(** C10: Commit leaves [items], every Host object and the counter as they
    were. *)
Theorem Commit_frame (h : Hosts) :
  items (Commit h) = items h ∧
  store (Commit h) = store h ∧
  (∀ p, deref (Commit h) p = deref h p) ∧
  sslPassthroughCount (Commit h) = sslPassthroughCount h ∧
  passthroughHosts (Commit h) = passthroughHosts h.
Proof. by split_and!. Qed.

(** ** AcquireHost *)

Lemma filter_key_absent {V} (l : list (string * V)) (k : string) :
  k ∉ l.*1 → filter (λ e : string * V, e.1 = k) l = [].
Proof.
  induction l as [|e l IH]; intros Hk; [done|].
  rewrite fmap_cons, not_elem_of_cons in Hk. destruct Hk as [Hne Hk].
  rewrite filter_cons_False by (intros Heq; by apply Hne). by apply IH.
Qed.

Lemma filter_key_unique {V} (l : list (string * V)) (k : string) (v : V) :
  NoDup l.*1 → (k, v) ∈ l → filter (λ e : string * V, e.1 = k) l = [(k, v)].
Proof.
  induction l as [|e l IH]; intros Hnd Hin; [by apply elem_of_nil in Hin|].
  rewrite fmap_cons in Hnd. apply NoDup_cons in Hnd as [Hnotin Hnd].
  apply elem_of_cons in Hin as [<-|Hin].
  - rewrite filter_cons_True by done. f_equal. by apply filter_key_absent.
  - assert (e.1 ≠ k) as Hne.
    { intros Heq. apply Hnotin. rewrite Heq.
      by apply (list_elem_of_fmap_2 fst) in Hin. }
    rewrite filter_cons_False by done. by apply IH.
Qed.

Lemma map_entries_of_key (m : gmap string addr) (k : string) (v : addr) :
  m !! k = Some v →
  filter (λ e : string * addr, e.1 = k) (map_to_list m) = [(k, v)].
Proof.
  intros Hk. apply filter_key_unique.
  - apply NoDup_fst_map_to_list.
  - by apply elem_of_map_to_list.
Qed.

Lemma map_entries_of_key_le (m : gmap string addr) (k : string) :
  (length (filter (λ e : string * addr, e.1 = k) (map_to_list m)) ≤ 1)%nat.
Proof.
  destruct (m !! k) as [v|] eqn:E.
  - by rewrite (map_entries_of_key m k v).
  - rewrite filter_key_absent; [simpl; lia|].
    intros Hin. apply list_elem_of_fmap in Hin as ([k' v] & -> & Hin).
    apply elem_of_map_to_list in Hin. simpl in *. congruence.
Qed.

Lemma AcquireHost_found hostname h p :
  FindHost hostname h = Some p → AcquireHost hostname h = (h, p).
Proof. intros H. unfold AcquireHost. by rewrite H. Qed.

Lemma AcquireHost_items hostname h :
  items (AcquireHost hostname h).1 !! hostname = Some (AcquireHost hostname h).2.
Proof.
  unfold AcquireHost. destruct (FindHost hostname h) as [p|] eqn:E; simpl.
  - exact E.
  - apply lookup_insert_eq.
Qed.

(** C5: a second AcquireHost of the same hostname returns the pointer the
    first call returned and changes nothing: [items] keeps its one entry for
    the hostname, bound to that pointer, and [itemsAdd] is the one the first
    call left, with at most one entry for the hostname.  When the first
    call created the Host, that entry is the new pointer; when the Host
    existed, the first call changed nothing either. *)
Theorem AcquireHost_idempotent (hostname : string) (h : Hosts) :
  let r1 := AcquireHost hostname h in
  let r2 := AcquireHost hostname r1.1 in
  r2.2 = r1.2 ∧ r2.1 = r1.1 ∧
  filter (λ e : string * addr, e.1 = hostname) (map_to_list (items r2.1))
    = [(hostname, r1.2)] ∧
  itemsAdd r2.1 = itemsAdd r1.1 ∧
  (length (filter (λ e : string * addr, e.1 = hostname)
                  (map_to_list (itemsAdd r2.1))) ≤ 1)%nat ∧
  (FindHost hostname h = None →
     r1.2 = length (store h) ∧
     itemsAdd r2.1 = <[hostname := r1.2]> (itemsAdd h) ∧
     filter (λ e : string * addr, e.1 = hostname) (map_to_list (itemsAdd r2.1))
       = [(hostname, r1.2)]) ∧
  (∀ p, FindHost hostname h = Some p → r1 = (h, p)).
Proof.
  intros r1 r2.
  assert (r2 = r1) as Hr.
  { unfold r2. rewrite (AcquireHost_found hostname r1.1 r1.2).
    - by destruct r1.
    - apply AcquireHost_items. }
  rewrite Hr. split_and!; try done.
  - apply map_entries_of_key, AcquireHost_items.
  - apply map_entries_of_key_le.
  - intros Hnone. unfold r1, AcquireHost. rewrite Hnone. simpl.
    split_and!; [done..|]. apply map_entries_of_key, lookup_insert_eq.
  - apply AcquireHost_found.
Qed.

(** AcquireHost("x") twice on a fresh registry, and twice on the registry
    that already holds "x". *)
Lemma AcquireHost_idempotent_witness :
  let r1 := AcquireHost "x" CreateHosts in
  let r2 := AcquireHost "x" r1.1 in
  let r3 := AcquireHost "x" r2.1 in
  r2.2 = r1.2 ∧ r2.1 = r1.1 ∧ r1.2 = 0%nat ∧
  map_to_list (itemsAdd r2.1) = [("x", 0%nat)] ∧
  map_to_list (items r2.1) = [("x", 0%nat)] ∧
  r3 = (r2.1, 0%nat).
Proof.
  intros r1 r2 r3.
  destruct (AcquireHost_idempotent "x" CreateHosts) as (H1 & H2 & _ & _ & _ & H6 & _).
  destruct (AcquireHost_idempotent "x" r2.1) as (_ & _ & _ & _ & _ & _ & H7).
  split_and!; [exact H1|exact H2| |reflexivity|reflexivity|].
  - apply H6. reflexivity.
  - apply H7. reflexivity.
Defined.

(** ** Shrink *)

Lemma Hosts_eq (h1 h2 : Hosts) :
  (∀ k, view h1 k = view h2 k) → store h1 = store h2 →
  sslPassthroughCount h1 = sslPassthroughCount h2 →
  hasCommit h1 = hasCommit h2 → h1 = h2.
Proof.
  intros Hv Hs Hc Hb. destruct h1, h2. simpl in *. subst.
  f_equal; apply map_eq; intros k; specialize (Hv k); unfold view in Hv;
    simpl in Hv; congruence.
Qed.

Lemma DeepEqual_store h1 h2 a b :
  store h1 = store h2 → DeepEqual h1 a b = DeepEqual h2 a b.
Proof. intros Hs. unfold DeepEqual, deref. by rewrite Hs. Qed.

(** an iteration of the loop changes only what is recorded under the name it
    visits *)
Lemma shrinkOne_view_ne h name del k :
  name ≠ k → view (shrinkOne h (name, del)) k = view h k.
Proof.
  intros Hne. unfold shrinkOne, view.
  destruct (itemsAdd h !! name) as [add|]; [|done].
  destruct (DeepEqual h add del); [|done]. simpl.
  by rewrite lookup_insert_ne, !lookup_delete_ne.
Qed.

(** and at that name it depends only on what is recorded under the name and
    on the Host objects *)
Lemma shrinkOne_view_congr h1 h2 k del :
  view h1 k = view h2 k → store h1 = store h2 →
  view (shrinkOne h1 (k, del)) k = view (shrinkOne h2 (k, del)) k.
Proof.
  intros Hv Hs. unfold shrinkOne.
  assert (itemsAdd h1 !! k = itemsAdd h2 !! k) as ->.
  { unfold view in Hv. congruence. }
  destruct (itemsAdd h2 !! k) as [add|]; [|done].
  rewrite (DeepEqual_store h1 h2) by done.
  destruct (DeepEqual h2 add del); [|done].
  unfold view. simpl. by rewrite !lookup_insert_eq, !lookup_delete_eq.
Qed.

Lemma ShrinkIn_view_other order h k :
  k ∉ order.*1 → view (ShrinkIn order h) k = view h k.
Proof.
  unfold ShrinkIn. revert h.
  induction order as [|[name del] l IH]; intros h Hk; cbn [fold_left]; [done|].
  rewrite fmap_cons, not_elem_of_cons in Hk. destruct Hk as [Hne Hk].
  rewrite IH by done. by apply shrinkOne_view_ne.
Qed.

Lemma ShrinkIn_view_at order h k del :
  NoDup order.*1 → (k, del) ∈ order →
  view (ShrinkIn order h) k = view (shrinkOne h (k, del)) k.
Proof.
  unfold ShrinkIn. revert h.
  induction order as [|[name d] l IH]; intros h Hnd Hin; cbn [fold_left];
    [by apply elem_of_nil in Hin|].
  rewrite fmap_cons in Hnd. apply NoDup_cons in Hnd as [Hnotin Hnd].
  apply elem_of_cons in Hin as [Heq|Hin].
  - injection Heq as <- <-.
    by apply (ShrinkIn_view_other l (shrinkOne h (k, del)) k).
  - assert (name ≠ k) as Hne.
    { intros ->. apply Hnotin. by apply (list_elem_of_fmap_2 fst) in Hin. }
    rewrite IH by done. apply shrinkOne_view_congr.
    + by apply shrinkOne_view_ne.
    + apply shrinkOne_frame.
Qed.

(** the iteration order of the range over [itemsDel] does not matter *)
Lemma ShrinkIn_order order h :
  order ≡ₚ map_to_list (itemsDel h) → ShrinkIn order h = Shrink h.
Proof.
  intros Hp. unfold Shrink.
  pose proof (NoDup_fst_map_to_list (itemsDel h)) as Hnd.
  assert (NoDup order.*1) as Hnd' by (by rewrite Hp).
  apply Hosts_eq.
  - intros k. destruct (itemsDel h !! k) as [d|] eqn:E.
    + apply elem_of_map_to_list in E.
      rewrite (ShrinkIn_view_at _ h k d), (ShrinkIn_view_at _ h k d);
        try done. by rewrite Hp.
    + assert (k ∉ (map_to_list (itemsDel h)).*1) as Hk.
      { intros Hin. apply list_elem_of_fmap in Hin as ([k' v] & -> & Hin).
        apply elem_of_map_to_list in Hin. simpl in *. congruence. }
      rewrite !ShrinkIn_view_other; try done. by rewrite Hp.
  - by rewrite (proj1 (ShrinkIn_frame _ _)), (proj1 (ShrinkIn_frame _ _)).
  - by rewrite (proj1 (proj2 (ShrinkIn_frame _ _))),
               (proj1 (proj2 (ShrinkIn_frame _ _))).
  - by rewrite (proj2 (proj2 (ShrinkIn_frame _ _))),
               (proj2 (proj2 (ShrinkIn_frame _ _))).
Qed.

Lemma Shrink_view_del h k del :
  itemsDel h !! k = Some del →
  view (Shrink h) k = view (shrinkOne h (k, del)) k.
Proof.
  intros E. apply ShrinkIn_view_at.
  - apply NoDup_fst_map_to_list.
  - by apply elem_of_map_to_list.
Qed.

Lemma Shrink_view_nodel h k :
  itemsDel h !! k = None → view (Shrink h) k = view h k.
Proof.
  intros E. apply ShrinkIn_view_other.
  intros Hin. apply list_elem_of_fmap in Hin as ([k' v] & -> & Hin).
  apply elem_of_map_to_list in Hin. simpl in *. congruence.
Qed.

Lemma Shrink_store h : store (Shrink h) = store h.
Proof. apply ShrinkIn_frame. Qed.

(** a pair with deeply equal Hosts is cancelled and the removed Host is put
    back *)
Lemma Shrink_view_cancel h k add del :
  itemsAdd h !! k = Some add → itemsDel h !! k = Some del →
  DeepEqual h add del = true →
  view (Shrink h) k = (Some del, None, None).
Proof.
  intros Ha Hd He. rewrite (Shrink_view_del h k del) by done.
  unfold shrinkOne, view. rewrite Ha, He. simpl.
  by rewrite lookup_insert_eq, !lookup_delete_eq.
Qed.

(** any other pair is left alone *)
Lemma Shrink_view_keep h k add del :
  itemsAdd h !! k = Some add → itemsDel h !! k = Some del →
  DeepEqual h add del = false →
  view (Shrink h) k = view h k.
Proof.
  intros Ha Hd He. rewrite (Shrink_view_del h k del) by done.
  unfold shrinkOne. by rewrite Ha, He.
Qed.

(** ** A hostname removed and parsed again in one cycle *)

Lemma hostop_run_maps p h o :
  items (hostop_run p h o) = items h ∧
  itemsAdd (hostop_run p h o) = itemsAdd h ∧
  itemsDel (hostop_run p h o) = itemsDel h.
Proof.
  destruct o as [b path m|v| |]; simpl; try done.
  - unfold AddPath. by destruct (AddPath_host b path m (deref h p)).
  - unfold SetSSLPassthrough. case_bool_decide; [done|]. by destruct v.
Qed.

Lemma hostop_run_deref_ne p q h o :
  p ≠ q → deref (hostop_run p h o) q = deref h q.
Proof.
  intros Hne. destruct o as [b path m|v|tls|b]; simpl.
  - unfold AddPath. destruct (AddPath_host b path m (deref h p)). simpl.
    by apply deref_set_store_insert_ne.
  - unfold SetSSLPassthrough. case_bool_decide; [done|].
    destruct v; by rewrite deref_set_store_insert_ne.
  - by apply deref_set_store_insert_ne.
  - by apply deref_set_store_insert_ne.
Qed.

Lemma build_maps p ops h :
  items (build p ops h) = items h ∧
  itemsAdd (build p ops h) = itemsAdd h ∧
  itemsDel (build p ops h) = itemsDel h.
Proof.
  unfold build. revert h.
  induction ops as [|o l IH]; intros h; cbn [fold_left]; [done|].
  destruct (IH (hostop_run p h o)) as (-> & -> & ->).
  apply hostop_run_maps.
Qed.

Lemma build_deref_ne p q ops h :
  p ≠ q → deref (build p ops h) q = deref h q.
Proof.
  intros Hne. unfold build. revert h.
  induction ops as [|o l IH]; intros h; cbn [fold_left]; [done|].
  rewrite IH. by apply hostop_run_deref_ne.
Qed.

Lemma lookup_total_snoc_ne (l : list Host) (x : Host) (p : nat) :
  p ≠ length l → (l ++ [x]) !!! p = l !!! p.
Proof.
  intros Hne. rewrite !list_lookup_total_alt.
  destruct (decide (p < length l)%nat) as [Hlt|Hge].
  - by rewrite lookup_app_l.
  - rewrite (lookup_ge_None_2 l p) by lia.
    rewrite lookup_ge_None_2; [done|]. rewrite length_app. simpl. lia.
Qed.

Lemma RemoveAll_single x h p0 :
  items h !! x = Some p0 →
  items (RemoveAll [x] h) = delete x (items h) ∧
  itemsAdd (RemoveAll [x] h) = itemsAdd h ∧
  itemsDel (RemoveAll [x] h) = <[x := p0]> (itemsDel h) ∧
  store (RemoveAll [x] h) = store h.
Proof.
  intros Hx. unfold RemoveAll. cbn [fold_left].
  unfold removeOne, releaseHost. rewrite Hx.
  by destruct (sslPassthrough (deref h p0)).
Qed.

(** the registry after a reparse of a hostname that [items] holds *)
Lemma reparse_state x ops h p0 :
  items h !! x = Some p0 →
  let h3 := (reparse x ops h).1 in
  let p1 := (reparse x ops h).2 in
  p1 = length (store h) ∧
  items h3 = <[x := p1]> (items h) ∧
  itemsAdd h3 = <[x := p1]> (itemsAdd h) ∧
  itemsDel h3 = <[x := p0]> (itemsDel h) ∧
  (∀ q, q ≠ p1 → deref h3 q = deref h q).
Proof.
  intros Hx. unfold reparse.
  destruct (RemoveAll_single x h p0 Hx) as (Ri & Ra & Rd & Rs).
  set (h1 := RemoveAll [x] h) in *.
  assert (FindHost x h1 = None) as Hnone.
  { unfold FindHost. rewrite Ri. apply lookup_delete_eq. }
  unfold AcquireHost. rewrite Hnone. unfold createHost.
  cbn [fst snd].
  match goal with |- context [build ?p ops ?h2] =>
    destruct (build_maps p ops h2) as (Hi & Ha & Hd);
    pose proof (λ q, build_deref_ne p q ops h2) as Hq;
    set (h3 := build p ops h2) in * end.
  cbn [items itemsAdd itemsDel set_items set_itemsAdd set_store] in Hi, Ha, Hd.
  rewrite Hi, Ha, Hd, Ri, Ra, Rd, Rs.
  split_and!; try done.
  - by rewrite insert_delete_eq.
  - intros q Hne. rewrite Hq by (rewrite Rs; congruence).
    unfold deref. cbn [store set_items set_itemsAdd set_store].
    rewrite Rs. by apply lookup_total_snoc_ne.
Qed.

Lemma Changed_false h : itemsAdd h = ∅ → itemsDel h = ∅ → Changed h = false.
Proof. intros Ha Hd. unfold Changed. by rewrite Ha, Hd. Qed.

Lemma Changed_true_add h k p : itemsAdd h !! k = Some p → Changed h = true.
Proof.
  intros Hk. unfold Changed.
  assert (size (itemsAdd h) ≠ 0%nat) as Hs.
  { apply (map_size_ne_0_lookup_2 _ k). by eexists. }
  apply orb_true_intro. left. apply Z.ltb_lt. lia.
Qed.

(** C3: a hostname that [items] holds is removed, acquired again and the new
    Host is built to the content the removed Host has.  After Shrink the
    hostname is in neither change map, [items] binds it to the removed Host,
    whose content is the one it had and the one that was built, and when both
    change maps were empty before, they are empty again and Changed is
    false. *)
Theorem Shrink_cancels_unchanged_reparse (h : Hosts) (x : string) (p0 : addr)
    (ops : list hostop) :
  items h !! x = Some p0 →
  let h3 := (reparse x ops h).1 in
  let p1 := (reparse x ops h).2 in
  deref h3 p1 = deref h p0 →
  let h4 := Shrink h3 in
  itemsAdd h4 !! x = None ∧ itemsDel h4 !! x = None ∧
  items h4 !! x = Some p0 ∧
  deref h4 p0 = deref h p0 ∧ deref h4 p0 = deref h3 p1 ∧
  (itemsAdd h = ∅ → itemsDel h = ∅ →
   itemsAdd h4 = ∅ ∧ itemsDel h4 = ∅ ∧ Changed h4 = false).
Proof.
  intros Hx h3 p1 Hsame h4.
  destruct (reparse_state x ops h p0 Hx) as (Hp1 & Hi & Ha & Hd & Hq).
  fold h3 p1 in Hp1, Hi, Ha, Hd, Hq.
  assert (deref h3 p0 = deref h p0) as Hold.
  { destruct (decide (p0 = p1)) as [->|Hne]; [done|by apply Hq]. }
  assert (view h4 x = (Some p0, None, None)) as Hv.
  { apply (Shrink_view_cancel h3 x p1 p0).
    - rewrite Ha. apply lookup_insert_eq.
    - rewrite Hd. apply lookup_insert_eq.
    - unfold DeepEqual. rewrite Hsame, Hold.
      rewrite (bool_decide_eq_true_2 (deref h p0 = deref h p0)) by done.
      apply orb_true_r. }
  unfold view in Hv. injection Hv as Hvi Hva Hvd.
  assert (deref h4 p0 = deref h p0) as H4.
  { unfold h4, deref. rewrite Shrink_store. exact Hold. }
  split_and!; try done.
  - by rewrite H4, Hsame.
  - intros Hea Hed.
    assert (itemsAdd h4 = ∅ ∧ itemsDel h4 = ∅) as [Ea Ed].
    { split; apply map_eq; intros k; rewrite lookup_empty;
        (destruct (decide (k = x)) as [->|Hne]; [done|]);
        pose proof (Shrink_view_nodel h3 k) as Hk;
        rewrite Hd, Hed, lookup_insert_ne, lookup_empty in Hk by done;
        specialize (Hk eq_refl); fold h4 in Hk; unfold view in Hk;
        injection Hk as _ Hka Hkd.
      - by rewrite Hka, Ha, Hea, lookup_insert_ne, lookup_empty.
      - by rewrite Hkd, Hd, Hed, lookup_insert_ne, lookup_empty. }
    split_and!; [done..|]. by apply Changed_false.
Qed.

(** C4: when the Host built for the hostname differs from the removed one,
    Shrink leaves the hostname in both change maps (and [items] bound to the
    new Host, and Changed true). *)
Theorem Shrink_keeps_changed_reparse (h : Hosts) (x : string) (p0 : addr)
    (ops : list hostop) :
  items h !! x = Some p0 → (p0 < length (store h))%nat →
  let h3 := (reparse x ops h).1 in
  let p1 := (reparse x ops h).2 in
  deref h3 p1 ≠ deref h p0 →
  let h4 := Shrink h3 in
  itemsAdd h4 !! x = Some p1 ∧ itemsDel h4 !! x = Some p0 ∧
  items h4 !! x = Some p1 ∧ Changed h4 = true.
Proof.
  intros Hx Hlt h3 p1 Hdiff h4.
  destruct (reparse_state x ops h p0 Hx) as (Hp1 & Hi & Ha & Hd & Hq).
  fold h3 p1 in Hp1, Hi, Ha, Hd, Hq.
  assert (p0 ≠ p1) as Hne by lia.
  assert (view h4 x = view h3 x) as Hv.
  { apply (Shrink_view_keep h3 x p1 p0).
    - rewrite Ha. apply lookup_insert_eq.
    - rewrite Hd. apply lookup_insert_eq.
    - unfold DeepEqual. rewrite (Hq p0 Hne).
      rewrite bool_decide_eq_false_2 by done.
      by rewrite bool_decide_eq_false_2. }
  unfold view in Hv. rewrite Hi, Ha, Hd, !lookup_insert_eq in Hv.
  injection Hv as Hvi Hva Hvd.
  split_and!; try done. by apply (Changed_true_add h4 x p1).
Qed.

(** The registry holds "x" with the path "/" and is committed; "x" is
    removed, acquired again and given the path "/" again. *)
Lemma Shrink_cancels_unchanged_reparse_witness :
  let h := Commit (AddPath 0 None "/" "prefix" (AcquireHost "x" CreateHosts).1).1 in
  let r := reparse "x" [HAddPath None "/" "prefix"] h in
  let h4 := Shrink r.1 in
  r.2 = 1%nat ∧ Changed r.1 = true ∧
  itemsAdd h4 !! "x" = None ∧ itemsDel h4 !! "x" = None ∧
  items h4 !! "x" = Some 0%nat ∧ Changed h4 = false.
Proof.
  intros h r h4.
  destruct (Shrink_cancels_unchanged_reparse h "x" 0%nat
              [HAddPath None "/" "prefix"] eq_refl eq_refl)
    as (Ha & Hd & Hi & _ & _ & Hc).
  destruct (Hc eq_refl eq_refl) as (_ & _ & Hch).
  split_and!; [reflexivity|reflexivity|exact Ha|exact Hd|exact Hi|exact Hch].
Defined.

(** The same registry; "x" is removed, acquired again and given the paths
    "/" and "/extra". *)
Lemma Shrink_keeps_changed_reparse_witness :
  let h := Commit (AddPath 0 None "/" "prefix" (AcquireHost "x" CreateHosts).1).1 in
  let r := reparse "x" [HAddPath None "/" "prefix";
                        HAddPath None "/extra" "prefix"] h in
  let h4 := Shrink r.1 in
  itemsAdd h4 !! "x" = Some 1%nat ∧ itemsDel h4 !! "x" = Some 0%nat ∧
  items h4 !! "x" = Some 1%nat ∧ Changed h4 = true.
Proof.
  intros h r h4.
  assert (deref r.1 r.2 ≠ deref h 0%nat) as Hdiff.
  { intros Heq. apply (f_equal (λ host, length (Paths host))) in Heq.
    vm_compute in Heq. discriminate Heq. }
  assert (0 < length (store h))%nat as Hlt by (vm_compute; lia).
  exact (Shrink_keeps_changed_reparse h "x" 0%nat _ eq_refl Hlt Hdiff).
Defined.

(** ** BuildSortedItems *)

Lemma filter_all {A} (P : A → Prop) `{∀ x, Decision (P x)} (l : list A) :
  Forall P l → filter P l = l.
Proof.
  induction 1 as [|x l Hx Hl IH]; [done|].
  rewrite filter_cons_True by done. by rewrite IH.
Qed.

(** the entries that the loop of BuildSortedItems keeps *)
Lemma map_to_list_without (m : gmap string addr) (d : string) :
  filter (λ e : string * addr, e.1 ≠ d) (map_to_list m) ≡ₚ
  map_to_list (delete d m).
Proof.
  assert (∀ m' : gmap string addr, m' !! d = None →
            filter (λ e : string * addr, e.1 ≠ d) (map_to_list m')
            = map_to_list m') as Hall.
  { intros m' Hd. apply filter_all. apply Forall_forall.
    intros [k v] Hin. apply elem_of_map_to_list in Hin. simpl.
    intros ->. congruence. }
  destruct (m !! d) as [v|] eqn:E.
  - rewrite <- (map_to_list_delete m d v E).
    rewrite filter_cons_False by (simpl; tauto).
    by rewrite Hall by apply lookup_delete_eq.
  - rewrite (delete_id m d E). by rewrite Hall.
Qed.

Global Instance hostname_le_trans h : Transitive (hostname_le h).
Proof. intros a b c Hab Hbc. unfold hostname_le in *. by etrans. Qed.

(** what BuildSortedItems returns, for every order in which the range can
    visit the entries of [items] *)
Lemma BuildSortedItemsIn_spec (DefaultHost : string) (h : Hosts)
    (order : list (string * addr)) :
  order ≡ₚ map_to_list (items h) →
  match BuildSortedItemsIn DefaultHost order h with
  | None => delete DefaultHost (items h) = ∅
  | Some l =>
      l ≠ [] ∧
      l ≡ₚ (map_to_list (delete DefaultHost (items h))).*2 ∧
      (∀ p, p ∈ l ↔ ∃ k, k ≠ DefaultHost ∧ items h !! k = Some p) ∧
      StronglySorted (hostname_le h) l
  end.
Proof.
  intros Horder. unfold BuildSortedItemsIn.
  set (less := λ i j : addr, str_lt (Hostname (deref h i)) (Hostname (deref h j))).
  set (kept := filter (λ e : string * addr, e.1 ≠ DefaultHost) order).
  assert (sort_Slice less kept.*2
          ≡ₚ (map_to_list (delete DefaultHost (items h))).*2) as HP.
  { rewrite sort_Slice_Permutation. unfold kept.
    by rewrite Horder, map_to_list_without. }
  destruct (sort_Slice less kept.*2) as [|p l] eqn:E; simpl.
  - symmetry in HP. apply Permutation_nil_r in HP.
    apply fmap_nil_inv in HP. by apply map_to_list_empty_iff.
  - split_and!; [done|exact HP| |].
    + intros q. rewrite HP. rewrite list_elem_of_fmap. split.
      * intros ([k v] & -> & Hin). apply elem_of_map_to_list in Hin.
        apply lookup_delete_Some in Hin as [Hne Hk]. by exists k.
      * intros (k & Hne & Hk). exists (k, q). split; [done|].
        apply elem_of_map_to_list. by apply lookup_delete_Some.
    + rewrite <- E. apply Sorted_StronglySorted; [apply _|].
      eapply Sorted_weaken; [|apply sort_Slice_Sorted].
      * intros a b Hab. unfold ordered, less in Hab.
        by apply str_lt_le in Hab.
      * intros a b. apply str_lt_asym.
Qed.

(** C7: BuildSortedItems returns nil exactly when [items] has no entry other
    than the DefaultHost key; otherwise it returns a non-empty slice that
    holds the Hosts of all the other entries, each once, in ascending order
    of Hostname. *)
Theorem BuildSortedItems_spec (DefaultHost : string) (h : Hosts) :
  match BuildSortedItems DefaultHost h with
  | None => delete DefaultHost (items h) = ∅
  | Some l =>
      l ≠ [] ∧
      l ≡ₚ (map_to_list (delete DefaultHost (items h))).*2 ∧
      (∀ p, p ∈ l ↔ ∃ k, k ≠ DefaultHost ∧ items h !! k = Some p) ∧
      StronglySorted (hostname_le h) l
  end.
Proof. by apply BuildSortedItemsIn_spec. Qed.

(** "<default>" stands for the DefaultHost constant here. *)
Example BuildSortedItems_examples :
  let h0 := (AcquireHost "<default>" CreateHosts).1 in
  let h2 := (AcquireHost "a.com" (AcquireHost "b.com" h0).1).1 in
  BuildSortedItems "<default>" CreateHosts = None ∧
  BuildSortedItems "<default>" h0 = None ∧
  BuildSortedItems "<default>" h2 = Some [2%nat; 1%nat] ∧
  Hostname <$> (deref h2 <$> [2%nat; 1%nat]) = ["a.com"; "b.com"].
Proof. by vm_compute. Qed.

(** ** Shrink after an acquire and a remove of the same hostname *)

(** A hostname that is acquired (the Host is created) and then removed in the
    same cycle is in both change maps with one and the same pointer, which
    DeepEqual accepts: Shrink puts the Host back into [items]. *)
Lemma Shrink_restores_removed (h : Hosts) (x : string) :
  items h !! x = None →
  let r := AcquireHost x h in
  let h2 := RemoveAll [x] r.1 in
  items h2 !! x = None ∧ view (Shrink h2) x = (Some r.2, None, None).
Proof.
  intros Hx r h2.
  assert (r = (set_itemsAdd <[x := length (store h)]>
                 (set_items <[x := length (store h)]>
                    (createHost x h).1), length (store h))) as Hr.
  { unfold r, AcquireHost, FindHost. by rewrite Hx. }
  assert (items r.1 !! x = Some r.2) as Hi by apply AcquireHost_items.
  destruct (RemoveAll_single x r.1 r.2 Hi) as (Ri & Ra & Rd & Rs).
  fold h2 in Ri, Ra, Rd, Rs. split.
  - rewrite Ri. apply lookup_delete_eq.
  - apply (Shrink_view_cancel h2 x r.2 r.2).
    + rewrite Ra, Hr. simpl. apply lookup_insert_eq.
    + rewrite Rd. apply lookup_insert_eq.
    + unfold DeepEqual. by rewrite bool_decide_eq_true_2.
Qed.

(** C2 at AcquireHost("x"), RemoveAll(["x"]), Shrink() on a fresh registry:
    "x" was created and removed, RemoveAll took it out of [items], and
    Shrink puts it back and reports no change. *)
Theorem Shrink_restores_acquired_then_removed :
  let h1 := (AcquireHost "x" CreateHosts).1 in
  let h2 := RemoveAll ["x"] h1 in
  let h3 := Shrink h2 in
  items h2 !! "x" = None ∧
  map_to_list (itemsAdd h2) = [("x", 0%nat)] ∧
  map_to_list (itemsDel h2) = [("x", 0%nat)] ∧
  items h3 !! "x" = Some 0%nat ∧
  Changed h3 = false.
Proof. by vm_compute. Qed.

(** The same defect when the hostname was in [items] before the cycle: after
    remove, acquire, remove, the hostname is net-deleted, and Shrink puts the
    second Host into [items] and reports no change. *)
Example Shrink_restores_net_deleted :
  let h0 := Commit (AcquireHost "x" CreateHosts).1 in
  let h1 := RemoveAll ["x"] (AcquireHost "x" (RemoveAll ["x"] h0)).1 in
  items h1 !! "x" = None ∧
  items (Shrink h1) !! "x" = Some 1%nat ∧ Changed (Shrink h1) = false.
Proof. by vm_compute. Qed.

(** C1 at AcquireHost("x"), SetSSLPassthrough(true) on it, RemoveAll(["x"]),
    Shrink() on a fresh registry: the counter follows the flag and the
    removal, and Shrink puts the flagged Host back into [items] without
    counting it. *)
Theorem Shrink_breaks_passthrough_counter :
  let h1 := (AcquireHost "x" CreateHosts).1 in
  let h2 := SetSSLPassthrough 0 true h1 in
  let h3 := RemoveAll ["x"] h2 in
  let h4 := Shrink h3 in
  (sslPassthroughCount h2 = 1%Z ∧ passthroughHosts h2 = 1%nat) ∧
  (sslPassthroughCount h3 = 0%Z ∧ passthroughHosts h3 = 0%nat) ∧
  (sslPassthroughCount h4 = 0%Z ∧ passthroughHosts h4 = 1%nat) ∧
  HasSSLPassthrough h4 = false ∧
  SSLPassthrough (deref h4 0%nat) = true ∧ items h4 !! "x" = Some 0%nat.
Proof. by vm_compute. Qed.

(** ** The ssl-passthrough counter away from that defect *)

Lemma flagged_cons (f : addr → bool) (e : string * addr) l :
  length (filter (λ e : string * addr, f e.2 = true) (e :: l)) =
  (bit (f e.2) + length (filter (λ e : string * addr, f e.2 = true) l))%nat.
Proof.
  destruct (f e.2) eqn:E.
  - by rewrite filter_cons_True.
  - rewrite filter_cons_False; [done|]. by rewrite E.
Qed.

Lemma count_flagged_insert f (m : gmap string addr) k v :
  m !! k = None →
  count_flagged f (<[k := v]> m) = (bit (f v) + count_flagged f m)%nat.
Proof.
  intros Hk. unfold count_flagged.
  rewrite (map_to_list_insert m k v Hk). by rewrite flagged_cons.
Qed.

Lemma count_flagged_delete f (m : gmap string addr) k v :
  m !! k = Some v →
  count_flagged f m = (bit (f v) + count_flagged f (delete k m))%nat.
Proof.
  intros Hk. unfold count_flagged.
  rewrite <- (map_to_list_delete m k v Hk) at 1. by rewrite flagged_cons.
Qed.

Lemma count_flagged_ext f g (m : gmap string addr) :
  (∀ k v, m !! k = Some v → f v = g v) →
  count_flagged f m = count_flagged g m.
Proof.
  intros Hfg. unfold count_flagged.
  assert (Forall (λ e : string * addr, f e.2 = g e.2) (map_to_list m)) as Hall.
  { apply Forall_forall. intros [k v] Hin. simpl.
    apply (Hfg k). by apply elem_of_map_to_list. }
  induction Hall as [|e l He Hl IH]; [done|].
  by rewrite !flagged_cons, He, IH.
Qed.

Lemma passthroughHosts_count h :
  passthroughHosts h = count_flagged (flag h) (items h).
Proof. reflexivity. Qed.

Lemma deref_insert_cases h p host q :
  deref (set_store <[p := host]> h) q =
  if decide (q = p ∧ (p < length (store h))%nat) then host else deref h q.
Proof.
  case_decide as Hc.
  - destruct Hc as [-> Hlt]. by apply deref_set_store_insert.
  - destruct (decide (q = p)) as [->|Hne].
    + unfold deref. simpl. rewrite list_insert_ge; [done|].
      destruct (decide (p < length (store h))%nat); [tauto|lia].
    + by apply deref_set_store_insert_ne.
Qed.

(** writing a Host with the same name and flag keeps the invariant *)
Lemma registry_ok_rewrite h p host :
  Hostname host = Hostname (deref h p) →
  sslPassthrough host = sslPassthrough (deref h p) →
  registry_ok h → registry_ok (set_store <[p := host]> h).
Proof.
  intros Hn Hf (Hc & Hw & Hd).
  assert (∀ q, flag (set_store <[p := host]> h) q = flag h q) as Hflag.
  { intros q. unfold flag. rewrite deref_insert_cases.
    case_decide as Hq; [|done]. destruct Hq as [-> _]. done. }
  assert (∀ q, Hostname (deref (set_store <[p := host]> h) q)
               = Hostname (deref h q)) as Hname.
  { intros q. rewrite deref_insert_cases.
    case_decide as Hq; [|done]. destruct Hq as [-> _]. done. }
  split_and!.
  - unfold counter_ok in *. simpl. rewrite Hc. f_equal.
    rewrite !passthroughHosts_count.
    apply (count_flagged_ext (flag h)). intros k v _. by rewrite Hflag.
  - intros k q Hk. simpl in Hk. destruct (Hw k q Hk) as [Hlt Hq].
    split; [simpl; by rewrite length_insert|]. by rewrite Hname.
  - intros k q Hk. simpl in *. rewrite length_insert. by apply (Hd k).
Qed.

Lemma registry_ok_CreateHosts : registry_ok CreateHosts.
Proof.
  split_and!; [done| |]; intros k p Hk; simpl in Hk;
    by rewrite lookup_empty in Hk.
Qed.

Lemma registry_ok_AcquireHost x h :
  registry_ok h → registry_ok (AcquireHost x h).1.
Proof.
  intros (Hc & Hw & Hd). unfold AcquireHost.
  destruct (FindHost x h) as [p|] eqn:E; [done|].
  unfold FindHost in E. unfold createHost. cbn [fst snd].
  set (new := {| Hostname := x; Paths := []; TLS := mkHostTLSConfig "" "";
                 VarNamespace := false; sslPassthrough := false |}).
  set (h' := set_itemsAdd _ _).
  assert (∀ q, (q < length (store h))%nat → deref h' q = deref h q) as Hold.
  { intros q Hq. unfold deref, h'. simpl. apply lookup_total_snoc_ne. lia. }
  assert (deref h' (length (store h)) = new) as Hnew.
  { unfold deref, h'. simpl. by apply list_lookup_total_middle. }
  assert (length (store h') = S (length (store h))) as Hlen.
  { unfold h'. simpl. rewrite length_app. simpl. lia. }
  split_and!.
  - unfold counter_ok in *.
    change (sslPassthroughCount h') with (sslPassthroughCount h).
    rewrite Hc. f_equal. rewrite !passthroughHosts_count.
    change (items h') with (<[x := length (store h)]> (items h)).
    rewrite count_flagged_insert by done.
    unfold flag at 2. rewrite Hnew. simpl.
    apply count_flagged_ext. intros k v Hk. unfold flag.
    rewrite Hold; [done|]. by apply (Hw k).
  - intros k p Hk.
    change (items h') with (<[x := length (store h)]> (items h)) in Hk.
    rewrite Hlen. apply lookup_insert_Some in Hk as [[<- <-]|[Hne Hk]].
    + split; [lia|]. by rewrite Hnew.
    + destruct (Hw k p Hk) as [Hlt Hn]. split; [lia|]. by rewrite Hold.
  - intros k p Hk. rewrite Hlen.
    change (itemsDel h') with (itemsDel h) in Hk.
    specialize (Hd k p Hk). lia.
Qed.

Lemma registry_ok_removeOne h x :
  registry_ok h → registry_ok (removeOne h x).
Proof.
  intros (Hc & Hw & Hd). unfold removeOne.
  destruct (items h !! x) as [p|] eqn:E; [|done].
  set (h' := set_items _ _).
  assert (store h' = store h) as Hs.
  { unfold h', releaseHost. by destruct (sslPassthrough (deref h p)). }
  assert (items h' = delete x (items h)) as Hi.
  { unfold h', releaseHost. by destruct (sslPassthrough (deref h p)). }
  assert (itemsDel h' = <[x := p]> (itemsDel h)) as Hdl.
  { unfold h', releaseHost. by destruct (sslPassthrough (deref h p)). }
  assert (sslPassthroughCount h' =
          (sslPassthroughCount h - Z.of_nat (bit (flag h p)))%Z) as Hcnt.
  { unfold h', releaseHost, flag.
    destruct (sslPassthrough (deref h p)); simpl; lia. }
  split_and!.
  - unfold counter_ok in *. rewrite passthroughHosts_count in Hc |- *.
    rewrite Hcnt, Hc, Hi, (count_flagged_delete (flag h) (items h) x p E).
    rewrite (count_flagged_ext (flag h') (flag h)).
    + lia.
    + intros k v _. unfold flag, deref. by rewrite Hs.
  - intros k q Hk. rewrite Hi in Hk.
    apply lookup_delete_Some in Hk as [_ Hk].
    unfold deref. rewrite Hs. by apply Hw.
  - intros k q Hk. rewrite Hdl in Hk. rewrite Hs.
    apply lookup_insert_Some in Hk as [[<- <-]|[_ Hk]].
    + by apply (Hw x).
    + by apply (Hd k).
Qed.

Lemma registry_ok_RemoveAll hostnames h :
  registry_ok h → registry_ok (RemoveAll hostnames h).
Proof.
  unfold RemoveAll. revert h.
  induction hostnames as [|n l IH]; intros h Hok; cbn [fold_left]; [done|].
  by apply IH, registry_ok_removeOne.
Qed.

Lemma registry_ok_Commit h : registry_ok h → registry_ok (Commit h).
Proof.
  intros (Hc & Hw & Hd). split_and!; [done|done|].
  intros k p Hk. simpl in Hk. by rewrite lookup_empty in Hk.
Qed.

Lemma registry_ok_SetSSLPassthrough h p k value :
  items h !! k = Some p →
  registry_ok h → registry_ok (SetSSLPassthrough p value h).
Proof.
  intros Hk (Hc & Hw & Hd). unfold SetSSLPassthrough.
  case_bool_decide as Hv; [done|].
  destruct (Hw k p Hk) as [Hlt Hname].
  set (host := {| Hostname := Hostname (deref h p); Paths := Paths (deref h p);
                  TLS := TLS (deref h p);
                  VarNamespace := VarNamespace (deref h p);
                  sslPassthrough := value |}).
  set (hc := if value then set_count (λ c, (c + 1)%Z) h
             else set_count (λ c, (c - 1)%Z) h).
  assert (store hc = store h ∧ items hc = items h ∧ itemsDel hc = itemsDel h)
    as (Hs & Hi & Hdl) by (unfold hc; by destruct value).
  assert (sslPassthroughCount hc =
          (sslPassthroughCount h + Z.of_nat (bit value)
           - Z.of_nat (bit (flag h p)))%Z) as Hcnt.
  { unfold hc, flag. destruct value, (sslPassthrough (deref h p));
      simpl in *; try done; lia. }
  set (h' := set_store <[p := host]> hc).
  assert (∀ q, deref h' q = if decide (q = p) then host else deref h q) as Hder.
  { intros q. unfold h'. rewrite deref_insert_cases, Hs.
    unfold deref at 1. rewrite Hs.
    destruct (decide (q = p)) as [->|Hne].
    - by rewrite decide_True.
    - by rewrite decide_False by tauto. }
  split_and!.
  - unfold counter_ok in *. rewrite passthroughHosts_count in Hc |- *.
    change (sslPassthroughCount h') with (sslPassthroughCount hc).
    change (items h') with (items hc).
    rewrite Hcnt, Hc, Hi.
    rewrite (count_flagged_delete (flag h) (items h) k p Hk).
    rewrite (count_flagged_delete (flag h') (items h) k p Hk).
    rewrite (count_flagged_ext (flag h') (flag h) (delete k (items h))).
    + assert (flag h' p = value) as ->.
      { unfold flag. by rewrite Hder, decide_True. }
      lia.
    + intros k' q Hq. apply lookup_delete_Some in Hq as [Hne Hq].
      unfold flag. rewrite Hder, decide_False; [done|].
      intros ->. destruct (Hw k' p Hq) as [_ Hn']. congruence.
  - intros k' q Hq. change (items h') with (items hc) in Hq.
    rewrite Hi in Hq. destruct (Hw k' q Hq) as [Hl Hn].
    split.
    + unfold h'. simpl. by rewrite length_insert, Hs.
    + rewrite Hder. case_decide as Hqp; [|done]. by subst q.
  - intros k' q Hq. change (itemsDel h') with (itemsDel hc) in Hq.
    rewrite Hdl in Hq. unfold h'. simpl. rewrite length_insert, Hs.
    by apply (Hd k').
Qed.

Lemma registry_ok_shrinkOne h name del :
  (del < length (store h))%nat →
  (∀ a, itemsAdd h !! name = Some a → items h !! name = Some a) →
  registry_ok h → registry_ok (shrinkOne h (name, del)).
Proof.
  intros Hlt Hg (Hc & Hw & Hd). unfold shrinkOne.
  destruct (itemsAdd h !! name) as [add|] eqn:Ea; [|done].
  destruct (DeepEqual h add del) eqn:He; [|done].
  specialize (Hg add eq_refl). destruct (Hw name add Hg) as [Hla Hna].
  assert (deref h add = deref h del) as Heq.
  { unfold DeepEqual in He. apply orb_true_iff in He as [He|He].
    - apply bool_decide_eq_true_1 in He. by subst.
    - by apply bool_decide_eq_true_1 in He. }
  split_and!.
  - unfold counter_ok in *. rewrite passthroughHosts_count in Hc |- *.
    simpl. rewrite Hc. f_equal.
    change (count_flagged (flag h) (items h) =
            count_flagged (flag h) (<[name := del]> (items h))).
    rewrite <- (insert_delete_eq (items h)).
    rewrite count_flagged_insert by apply lookup_delete_eq.
    rewrite (count_flagged_delete (flag h) (items h) name add Hg).
    unfold flag. by rewrite Heq.
  - intros k q Hq. simpl in Hq.
    apply lookup_insert_Some in Hq as [[<- <-]|[_ Hq]].
    + split; [done|]. change (Hostname (deref h del) = name). by rewrite <- Heq.
    + by apply Hw.
  - intros k q Hq. simpl in Hq. apply lookup_delete_Some in Hq as [_ Hq].
    by apply (Hd k).
Qed.

Lemma registry_ok_ShrinkIn order h :
  NoDup order.*1 →
  (∀ k d, (k, d) ∈ order →
     (d < length (store h))%nat ∧
     ∀ a, itemsAdd h !! k = Some a → items h !! k = Some a) →
  registry_ok h → registry_ok (ShrinkIn order h).
Proof.
  unfold ShrinkIn. revert h.
  induction order as [|[name del] l IH]; intros h Hnd Hg Hok;
    cbn [fold_left]; [done|].
  rewrite fmap_cons in Hnd. apply NoDup_cons in Hnd as [Hnotin Hnd].
  destruct (Hg name del (list_elem_of_here _ _)) as [Hlt Hga].
  apply IH; [done| |by apply registry_ok_shrinkOne].
  intros k d Hin.
  assert (name ≠ k) as Hne.
  { intros ->. apply Hnotin. by apply (list_elem_of_fmap_2 fst) in Hin. }
  destruct (Hg k d (list_elem_of_further _ _ _ Hin)) as [Hd Ha].
  rewrite (proj1 (shrinkOne_frame h (name, del))).
  pose proof (shrinkOne_view_ne h name del k Hne) as Hv.
  pose proof (f_equal (λ v, v.1.1) Hv) as Hvi.
  pose proof (f_equal (λ v, v.1.2) Hv) as Hva.
  unfold view in Hvi, Hva. cbn [fst snd] in Hvi, Hva.
  split; [done|]. intros a. rewrite Hvi, Hva. apply Ha.
Qed.

Lemma registry_ok_Shrink h :
  shrink_guard h → registry_ok h → registry_ok (Shrink h).
Proof.
  intros Hg Hok. apply registry_ok_ShrinkIn; [apply NoDup_fst_map_to_list| |done].
  intros k d Hin. apply elem_of_map_to_list in Hin. split.
  - destruct Hok as (_ & _ & Hd). by apply (Hd k).
  - intros a Ha. apply Hg; [done|]. by eexists.
Qed.

Lemma registry_ok_hostop p o h :
  (∀ value, o = HSetSSLPassthrough value → ∃ k, items h !! k = Some p) →
  registry_ok h → registry_ok (hostop_run p h o).
Proof.
  intros Hlive Hok. destruct o as [b path m|v|tls|b]; simpl.
  - unfold AddPath.
    pose proof (AddPath_host_frame b path m (deref h p)) as (Hn & _ & _ & Hf).
    destruct (AddPath_host b path m (deref h p)) as [host b'].
    by apply registry_ok_rewrite.
  - destruct (Hlive v eq_refl) as [k Hk].
    by apply (registry_ok_SetSSLPassthrough h p k).
  - by apply registry_ok_rewrite.
  - by apply registry_ok_rewrite.
Qed.

Lemma registry_ok_op h o :
  admissible h o → registry_ok h → registry_ok (op_run h o).
Proof.
  intros Ha Hok. destruct o as [n|l| | |p o]; simpl.
  - by apply registry_ok_AcquireHost.
  - by apply registry_ok_RemoveAll.
  - by apply registry_ok_Shrink.
  - by apply registry_ok_Commit.
  - apply registry_ok_hostop; [|done]. intros v ->. exact Ha.
Qed.

(** Away from the defect of Shrink the counter is exact along every sequence
    of calls on a fresh registry. *)
Lemma passthrough_counter_exact ops :
  admissible_run ops CreateHosts →
  sslPassthroughCount (run ops CreateHosts)
  = Z.of_nat (passthroughHosts (run ops CreateHosts)).
Proof.
  assert (∀ h, admissible_run ops h → registry_ok h → registry_ok (run ops h))
    as H.
  { unfold run. induction ops as [|o l IH]; intros h Ha Hok;
      cbn [fold_left]; [done|].
    destruct Ha as [Ho Hl]. apply IH; [done|]. by apply registry_ok_op. }
  intros Ha. by apply (H CreateHosts Ha registry_ok_CreateHosts).
Qed.

(** A cycle of the intended shape: "x" is flagged and committed, then
    removed, acquired again, flagged again, and Shrink cancels the pair. *)
Example passthrough_counter_exact_reparse :
  let ops := [OpAcquireHost "x"; OpHost 0 (HSetSSLPassthrough true); OpCommit;
              OpRemoveAll ["x"]; OpAcquireHost "x";
              OpHost 1 (HSetSSLPassthrough true); OpShrink] in
  admissible_run ops CreateHosts ∧
  sslPassthroughCount (run ops CreateHosts) = 1%Z ∧
  passthroughHosts (run ops CreateHosts) = 1%nat ∧
  items (run ops CreateHosts) !! "x" = Some 0%nat ∧
  Changed (run ops CreateHosts) = false.
Proof.
  split; [|by vm_compute].
  cbn [admissible_run admissible]. split_and!; try done.
  - by exists "x".
  - by exists "x".
  - intros k a Ha _.
    assert (itemsAdd (run [OpAcquireHost "x"; OpHost 0 (HSetSSLPassthrough true);
                           OpCommit; OpRemoveAll ["x"]; OpAcquireHost "x";
                           OpHost 1 (HSetSSLPassthrough true)] CreateHosts)
            = {["x" := 1%nat]}) as Eadd by (by vm_compute).
    assert (items (run [OpAcquireHost "x"; OpHost 0 (HSetSSLPassthrough true);
                        OpCommit; OpRemoveAll ["x"]; OpAcquireHost "x";
                        OpHost 1 (HSetSSLPassthrough true)] CreateHosts)
            = {["x" := 1%nat]}) as Eit by (by vm_compute).
    unfold run in Eadd, Eit. cbn [fold_left] in Eadd, Eit.
    rewrite Eadd in Ha. by rewrite Eit.
Qed.

(** ** The hostnames of [items] away from that defect *)

Lemma AcquireHost_dom x h :
  dom (items (AcquireHost x h).1) = {[x]} ∪ dom (items h).
Proof.
  unfold AcquireHost, FindHost. destruct (items h !! x) as [p|] eqn:E.
  - simpl. apply set_eq. intros k.
    rewrite elem_of_union, elem_of_singleton, !elem_of_dom.
    split; [by right|]. intros [->|Hk]; [by eexists|done].
  - simpl. by rewrite dom_insert_L.
Qed.

Lemma removeOne_dom h x :
  dom (items (removeOne h x)) = dom (items h) ∖ {[x]}.
Proof.
  unfold removeOne, releaseHost. destruct (items h !! x) as [p|] eqn:E.
  - destruct (sslPassthrough (deref h p)); simpl; by rewrite dom_delete_L.
  - apply set_eq. intros k.
    rewrite elem_of_difference, elem_of_singleton, !elem_of_dom.
    split; [|by intros [? _]].
    intros Hk. split; [done|]. intros ->. rewrite E in Hk. by destruct Hk.
Qed.

Lemma RemoveAll_dom hostnames h :
  dom (items (RemoveAll hostnames h)) = dom (items h) ∖ list_to_set hostnames.
Proof.
  unfold RemoveAll. revert h.
  induction hostnames as [|n l IH]; intros h; cbn [fold_left].
  - simpl. by rewrite difference_empty_L.
  - rewrite IH, removeOne_dom. simpl. apply set_eq. intros k.
    rewrite !elem_of_difference, elem_of_union. tauto.
Qed.

(** Shrink keeps the hostnames of [items] when no hostname that was acquired
    in the cycle has been removed again. *)
Lemma Shrink_dom_guarded h :
  shrink_guard h → dom (items (Shrink h)) = dom (items h).
Proof.
  intros Hg. apply set_eq. intros k. rewrite !elem_of_dom.
  destruct (itemsDel h !! k) as [d|] eqn:Ed.
  - pose proof (f_equal (λ v, v.1.1) (Shrink_view_del h k d Ed)) as Hv.
    unfold view in Hv. cbn [fst snd] in Hv. rewrite Hv.
    unfold shrinkOne. destruct (itemsAdd h !! k) as [a|] eqn:Ea; [|done].
    destruct (DeepEqual h a d); [|done]. simpl. rewrite lookup_insert_eq.
    rewrite (Hg k a Ea) by (by eexists). split; by eexists.
  - pose proof (f_equal (λ v, v.1.1) (Shrink_view_nodel h k Ed)) as Hv.
    unfold view in Hv. cbn [fst snd] in Hv. by rewrite Hv.
Qed.

(** * Further properties of host.go *)

(** ** PathLink.Less and PathLink.IsEmpty *)

Lemma str_lt_trans a b c :
  str_lt a b = true → str_lt b c = true → str_lt a c = true.
Proof.
  rewrite !str_lt_iff. intros [Hab Nab] [Hbc Nbc]. split.
  - by etrans.
  - intros ->. apply Nab. by apply (anti_symm String.le).
Qed.

Lemma str_lt_total a b : a ≠ b → str_lt a b = true ∨ str_lt b a = true.
Proof.
  intros Hne. rewrite !str_lt_iff.
  destruct (total String.le a b); [left|right]; split; congruence.
Qed.

Lemma str_lt_empty a : a ≠ "" → str_lt "" a = true.
Proof. intros Hne. by destruct a. Qed.

Lemma str_lt_empty_r a : str_lt a "" = false.
Proof. by destruct a. Qed.

Lemma Less_same_hostname a b rev :
  pl_hostname a = pl_hostname b →
  Less a b rev = if rev then str_lt (pl_path b) (pl_path a)
                 else str_lt (pl_path a) (pl_path b).
Proof. intros H. unfold Less. by rewrite bool_decide_eq_true_2. Qed.

Lemma Less_other_hostname a b rev :
  pl_hostname a ≠ pl_hostname b →
  Less a b rev = str_lt (pl_hostname a) (pl_hostname b).
Proof. intros H. unfold Less. by rewrite bool_decide_eq_false_2. Qed.

(** X1: for either value of reversePath, Less is a strict total order on
    PathLinks: it never holds between a link and itself, never in both
    directions, it is transitive, and of two different links one is Less
    than the other.  reversePath swaps the order of the paths of one
    hostname and leaves the order of hostnames alone. *)
Theorem Less_strict_total_order (a b c : PathLink) (rev : bool) :
  Less a a rev = false ∧
  (Less a b rev = true → Less b a rev = false) ∧
  (Less a b rev = true → Less b c rev = true → Less a c rev = true) ∧
  (a ≠ b → Less a b rev = true ∨ Less b a rev = true) ∧
  (pl_hostname a = pl_hostname b → Less a b true = Less b a false) ∧
  (pl_hostname a ≠ pl_hostname b → Less a b true = Less a b false).
Proof.
  split_and!.
  - rewrite Less_same_hostname by done. destruct rev; apply str_lt_irrefl.
  - destruct (decide (pl_hostname a = pl_hostname b)) as [E|N].
    + rewrite !Less_same_hostname by done. destruct rev; apply str_lt_asym.
    + rewrite !Less_other_hostname by done. apply str_lt_asym.
  - destruct (decide (pl_hostname a = pl_hostname b)) as [E1|N1],
             (decide (pl_hostname b = pl_hostname c)) as [E2|N2].
    + rewrite !Less_same_hostname by congruence.
      destruct rev; intros H1 H2; eapply str_lt_trans; eauto.
    + rewrite (Less_same_hostname a b) by done.
      rewrite !Less_other_hostname by congruence. intros _. by rewrite E1.
    + rewrite (Less_same_hostname b c) by done.
      rewrite !Less_other_hostname by congruence. intros H _. by rewrite <- E2.
    + rewrite (Less_other_hostname a b), (Less_other_hostname b c) by done.
      intros H1 H2. pose proof (str_lt_trans _ _ _ H1 H2) as H3.
      rewrite Less_other_hostname; [done|].
      intros E. rewrite E in H3. by rewrite str_lt_irrefl in H3.
  - intros Hne. destruct (decide (pl_hostname a = pl_hostname b)) as [E|N].
    + rewrite !Less_same_hostname by done.
      assert (pl_path a ≠ pl_path b) as Np.
      { intros Ep. apply Hne. destruct a, b. simpl in *. congruence. }
      destruct rev; [apply or_comm|]; by apply str_lt_total.
    + rewrite !Less_other_hostname by done. by apply str_lt_total.
  - intros E. by rewrite !Less_same_hostname.
  - intros N. by rewrite !Less_other_hostname.
Qed.

Lemma Less_strict_total_order_witness :
  let a := CreatePathLink "a.com" "/" in
  let b := CreatePathLink "a.com" "/api" in
  let c := CreatePathLink "b.com" "/" in
  Less a b false = true ∧ Less b a true = true ∧
  Less b a false = false ∧ Less a c false = true ∧ Less b c true = true ∧
  (Less a b false = true ∨ Less b a false = true).
Proof.
  intros a b c.
  destruct (Less_strict_total_order a b c false) as (_ & H2 & H3 & H4 & _ & _).
  destruct (Less_strict_total_order b a c true) as (_ & _ & _ & _ & H5 & _).
  destruct (Less_strict_total_order b c a true) as (_ & _ & _ & _ & _ & H6).
  assert (Less a b false = true) as Hab by reflexivity.
  assert (Less b c false = true) as Hbc by reflexivity.
  assert (pl_hostname b ≠ pl_hostname c) as Nbc by discriminate.
  assert (a ≠ b) as Nab by discriminate.
  exact (conj Hab (conj (eq_trans (H5 eq_refl) Hab) (conj (H2 Hab)
          (conj (H3 Hab Hbc) (conj (eq_trans (H6 Nbc) Hbc) (H4 Nab)))))).
Defined.

(** X2: IsEmpty holds for the link of the empty hostname and the empty
    path and for no other; without reversePath the empty link is the least
    one: no link is Less than it and it is Less than every other link. *)
Theorem IsEmpty_least (e l : PathLink) :
  (IsEmpty l = true ↔ l = CreatePathLink "" "") ∧
  (IsEmpty e = true →
     Less l e false = false ∧ (IsEmpty l = false → Less e l false = true)).
Proof.
  assert (∀ x, IsEmpty x = true ↔ x = CreatePathLink "" "") as Hiff.
  { intros [xh xp]. unfold IsEmpty, CreatePathLink. simpl.
    rewrite andb_true_iff, !bool_decide_eq_true. split.
    - by intros [-> ->].
    - intros [= -> ->]. done. }
  split; [apply Hiff|].
  intros He. apply Hiff in He. subst e. split.
  - unfold Less. simpl. case_bool_decide; apply str_lt_empty_r.
  - intros Hl. unfold Less. simpl. case_bool_decide as E.
    + apply str_lt_empty. intros Ep. destruct l as [lh lp]. simpl in *.
      subst. discriminate Hl.
    + apply str_lt_empty. congruence.
Qed.

Lemma IsEmpty_least_witness :
  let e := CreatePathLink "" "" in
  let l := CreatePathLink "" "/" in
  IsEmpty e = true ∧ Less l e false = false ∧ Less e l false = true.
Proof.
  intros e l.
  destruct (IsEmpty_least e l) as [_ H]. destruct (H eq_refl) as [H1 H2].
  exact (conj eq_refl (conj H1 (H2 eq_refl))).
Defined.

(** ** SetSSLPassthrough *)


Lemma deref_lookup h p : (p < length (store h))%nat → store h !! p = Some (deref h p).
Proof.
  intros Hlt. unfold deref. rewrite list_lookup_total_alt.
  destruct (lookup_lt_is_Some_2 (store h) p Hlt) as [x ->]. done.
Qed.




(** ** FindPath and AddPath *)

Lemma FindPath_Some path host p :
  FindPath path host = Some p → p ∈ Paths host ∧ hp_Path p = path.
Proof.
  unfold FindPath. induction (Paths host) as [|q l IH]; simpl; [done|].
  case_bool_decide as E.
  - intros [= <-]. split; [apply list_elem_of_here|done].
  - intros H. destruct (IH H) as [Hin Hp].
    split; [by apply list_elem_of_further|done].
Qed.

Lemma FindPath_is_Some path host :
  is_Some (FindPath path host) ↔ path ∈ hp_Path <$> Paths host.
Proof.
  split.
  - intros [p Hp]. apply FindPath_Some in Hp as [Hin <-].
    by apply list_elem_of_fmap_2.
  - intros Hin. destruct (FindPath path host) as [p|] eqn:E; [by eexists|].
    exfalso. apply list_elem_of_fmap in Hin as (q & -> & Hq).
    unfold FindPath in E. revert E Hq.
    induction (Paths host) as [|r l IH]; simpl; intros E Hq;
      [by apply elem_of_nil in Hq|].
    case_bool_decide as Er; [done|].
    apply elem_of_cons in Hq as [->|Hq]; [done|by apply IH].
Qed.

(** X4: FindPath after AddPath.  The path string that was added is found;
    any other path string is found exactly when it was found before; a hit
    is an entry of the Host with the path string asked for; and when the
    Host had no entry of the added path string, FindPath returns the entry
    that AddPath built (the link (Hostname, path), the match type and the
    snapshot of the backend, or the "_error404" one). *)
Theorem FindPath_after_AddPath (backend : option Backend) (path other : string)
    (match_ : MatchType) (host : Host) :
  let host' := (AddPath_host backend path match_ host).1 in
  is_Some (FindPath path host') ∧
  (other ≠ path →
     (is_Some (FindPath other host') ↔ is_Some (FindPath other host))) ∧
  (∀ p, FindPath other host' = Some p →
        hp_Path p = other ∧
        (p ∈ Paths host ∨ p = newHostPath backend path match_ host)) ∧
  (FindPath path host = None →
     FindPath path host' = Some (newHostPath backend path match_ host)).
Proof.
  intros host'.
  pose proof (AddPath_host_Permutation backend path match_ host) as HP.
  fold host' in HP.
  assert (∀ s, s ∈ hp_Path <$> Paths host' ↔
               s ∈ hp_Path <$> Paths host ∨ s = path) as Hmem.
  { intros s. rewrite HP, fmap_app, elem_of_app. simpl.
    by rewrite list_elem_of_singleton. }
  assert (∀ s p, FindPath s host' = Some p →
                 hp_Path p = s ∧
                 (p ∈ Paths host ∨ p = newHostPath backend path match_ host))
    as Hhit.
  { intros s p Hp. apply FindPath_Some in Hp as [Hin Hs]. split; [done|].
    rewrite HP, elem_of_app, list_elem_of_singleton in Hin. done. }
  split_and!.
  - apply FindPath_is_Some, Hmem. by right.
  - intros Hne. rewrite !FindPath_is_Some, Hmem. tauto.
  - apply Hhit.
  - intros Hnone.
    assert (is_Some (FindPath path host')) as [p Hp].
    { apply FindPath_is_Some, Hmem. by right. }
    rewrite Hp. f_equal. destruct (Hhit path p Hp) as [Hpath [Hin|Heq]]; [|done].
    exfalso. assert (is_Some (FindPath path host)) as [? ?]; [|congruence].
    apply FindPath_is_Some. rewrite <- Hpath. by apply list_elem_of_fmap_2.
Qed.

(** "a.com" with the path "/api": AddPath of "/" with a backend. *)
Lemma FindPath_after_AddPath_witness :
  let h := (AddPath 0 None "/api" "prefix" (AcquireHost "a.com" CreateHosts).1).1 in
  let b := mkBackend "default_echo_8080" "default" "echo" "8080" [] in
  let host' := (AddPath_host (Some b) "/" "exact" (deref h 0%nat)).1 in
  FindPath "/" host' =
    Some (mkHostPath "/" (CreatePathLink "a.com" "/") "exact"
            (mkHostBackend "default_echo_8080" "default" "echo" "8080")) ∧
  is_Some (FindPath "/api" host') ∧
  FindPath "/other" host' = None.
Proof.
  intros h b host'.
  destruct (FindPath_after_AddPath (Some b) "/" "/api" "exact" (deref h 0%nat))
    as (_ & H2 & _ & H4).
  destruct (FindPath_after_AddPath (Some b) "/" "/other" "exact" (deref h 0%nat))
    as (_ & H2' & _ & _).
  assert ("/api" ≠ "/") as N1 by discriminate.
  assert ("/other" ≠ "/") as N2 by discriminate.
  refine (conj (H4 eq_refl) (conj (proj2 (H2 N1) _) _)).
  - eexists. reflexivity.
  - destruct (FindPath "/other" host') as [p|] eqn:E; [|reflexivity].
    exfalso. destruct (proj1 (H2' N2)) as [q Hq].
    + fold host'. rewrite E. by eexists.
    + discriminate Hq.
Defined.

(** X5: AddPath through a pointer to an allocated Host changes the path list
    of that Host and nothing else of the registry: the maps, the counter and
    hasCommit are as before, no other Host is touched, the Host keeps its
    Hostname, TLS config and flags and has one path more.  A backend that
    is given receives the link (Hostname, path) through AddBackendPath; nil
    stays nil. *)
Theorem AddPath_frame (p : addr) (backend : option Backend) (path : string)
    (match_ : MatchType) (h : Hosts) :
  (p < length (store h))%nat →
  let r := AddPath p backend path match_ h in
  (items r.1 = items h ∧ itemsAdd r.1 = itemsAdd h ∧ itemsDel r.1 = itemsDel h ∧
   sslPassthroughCount r.1 = sslPassthroughCount h ∧
   hasCommit r.1 = hasCommit h) ∧
  length (store r.1) = length (store h) ∧
  (∀ q, q ≠ p → deref r.1 q = deref h q) ∧
  (Hostname (deref r.1 p) = Hostname (deref h p) ∧
   TLS (deref r.1 p) = TLS (deref h p) ∧
   VarNamespace (deref r.1 p) = VarNamespace (deref h p) ∧
   sslPassthrough (deref r.1 p) = sslPassthrough (deref h p)) ∧
  length (Paths (deref r.1 p)) = S (length (Paths (deref h p))) ∧
  r.2 = (λ b, AddBackendPath b (CreatePathLink (Hostname (deref h p)) path))
          <$> backend.
Proof.
  intros Hlt r. unfold r, AddPath.
  pose proof (AddPath_host_frame backend path match_ (deref h p)) as HF.
  pose proof (AddPath_host_Permutation backend path match_ (deref h p)) as HP.
  assert ((AddPath_host backend path match_ (deref h p)).2 =
          (λ b, AddBackendPath b (CreatePathLink (Hostname (deref h p)) path))
            <$> backend) as HB.
  { unfold AddPath_host. by destruct backend. }
  destruct (AddPath_host backend path match_ (deref h p)) as [host' b'].
  cbn [fst snd] in *. rewrite deref_set_store_insert by done.
  split_and!; try done; try apply HF.
  - simpl. by rewrite length_insert.
  - intros q Hq. by apply deref_set_store_insert_ne.
  - rewrite HP, length_app. simpl. lia.
Qed.

Lemma AddPath_frame_witness :
  let h := (AcquireHost "b.com" (AcquireHost "a.com" CreateHosts).1).1 in
  let b := mkBackend "default_echo_8080" "default" "echo" "8080" [] in
  let r := AddPath 0 (Some b) "/" "exact" h in
  items r.1 = items h ∧ deref r.1 1%nat = deref h 1%nat ∧
  length (Paths (deref r.1 0%nat)) = 1%nat ∧
  (b_pathlinks <$> r.2) = Some [CreatePathLink "a.com" "/"].
Proof.
  intros h b r.
  assert (0 < length (store h))%nat as Hlt by (vm_compute; lia).
  destruct (AddPath_frame 0%nat (Some b) "/" "exact" h Hlt)
    as ((H1 & _) & _ & H3 & _ & H5 & H6).
  assert (1%nat ≠ 0%nat) as N by discriminate.
  refine (conj H1 (conj (H3 1%nat N) (conj H5 _))).
  fold r in H6. rewrite H6. reflexivity.
Defined.

(** ** AcquireHost of an unknown hostname *)

(** the registry after AcquireHost has created a Host *)
Lemma AcquireHost_new (x : string) (h : Hosts) :
  FindHost x h = None →
  let r := AcquireHost x h in
  r.2 = length (store h) ∧
  deref r.1 r.2 = {| Hostname := x; Paths := []; TLS := mkHostTLSConfig "" "";
                     VarNamespace := false; sslPassthrough := false |} ∧
  (∀ k, FindHost k r.1 = if decide (k = x) then Some r.2 else FindHost k h) ∧
  itemsAdd r.1 = <[x := r.2]> (itemsAdd h) ∧
  (itemsDel r.1 = itemsDel h ∧
   sslPassthroughCount r.1 = sslPassthroughCount h ∧
   hasCommit r.1 = hasCommit h) ∧
  (∀ q, (q < length (store h))%nat → deref r.1 q = deref h q) ∧
  Changed r.1 = true.
Proof.
  intros Hnone r. unfold r, AcquireHost. rewrite Hnone.
  unfold createHost. cbn [fst snd].
  split_and!; try done.
  - unfold deref. simpl. by apply list_lookup_total_middle.
  - intros k. unfold FindHost. simpl. case_decide as E.
    + subst k. apply lookup_insert_eq.
    + by rewrite lookup_insert_ne.
  - intros q Hq. unfold deref. simpl. apply lookup_total_snoc_ne. lia.
  - apply (Changed_true_add _ x (length (store h))). simpl.
    apply lookup_insert_eq.
Qed.

(** X6: AcquireHost of a hostname that [items] does not hold allocates a new
    Host object: the pointer is none of the allocated ones, the Host has the
    hostname, no path, the zero TLS config and both flags false.  FindHost
    then finds it under the hostname and finds every other hostname as
    before, [itemsAdd] gains the entry, [itemsDel], the counter, hasCommit
    and every Host that existed are untouched, and Changed is true. *)
Theorem AcquireHost_creates (x : string) (h : Hosts) :
  FindHost x h = None →
  let r := AcquireHost x h in
  r.2 = length (store h) ∧
  deref r.1 r.2 = {| Hostname := x; Paths := []; TLS := mkHostTLSConfig "" "";
                     VarNamespace := false; sslPassthrough := false |} ∧
  (∀ k, FindHost k r.1 = if decide (k = x) then Some r.2 else FindHost k h) ∧
  itemsAdd r.1 = <[x := r.2]> (itemsAdd h) ∧
  (itemsDel r.1 = itemsDel h ∧
   sslPassthroughCount r.1 = sslPassthroughCount h ∧
   hasCommit r.1 = hasCommit h) ∧
  (∀ q, (q < length (store h))%nat → deref r.1 q = deref h q) ∧
  Changed r.1 = true.
Proof.
  intros Hnone r. unfold r, AcquireHost. rewrite Hnone.
  unfold createHost. cbn [fst snd].
  split_and!; try done.
  - unfold deref. simpl. by apply list_lookup_total_middle.
  - intros k. unfold FindHost. simpl. case_decide as E.
    + subst k. apply lookup_insert_eq.
    + by rewrite lookup_insert_ne.
  - intros q Hq. unfold deref. simpl. apply lookup_total_snoc_ne. lia.
  - apply (Changed_true_add _ x (length (store h))). simpl.
    apply lookup_insert_eq.
Qed.

Lemma AcquireHost_creates_witness :
  let h := Commit (AcquireHost "a.com" CreateHosts).1 in
  let r := AcquireHost "b.com" h in
  r.2 = 1%nat ∧ Hostname (deref r.1 r.2) = "b.com" ∧
  FindHost "b.com" r.1 = Some 1%nat ∧ FindHost "a.com" r.1 = Some 0%nat ∧
  Changed h = false ∧ Changed r.1 = true.
Proof.
  intros h r.
  destruct (AcquireHost_creates "b.com" h eq_refl)
    as (H1 & H2 & H3 & _ & _ & _ & H7).
  fold r in H1, H2, H3, H7.
  refine (conj H1 (conj _ (conj _ (conj _ (conj eq_refl H7))))).
  - by rewrite H2.
  - rewrite (H3 "b.com"). rewrite decide_True by done. by rewrite H1.
  - rewrite (H3 "a.com"). by rewrite decide_False by discriminate.
Defined.

(** ** RemoveAll *)

Lemma removeOne_view_present h x p :
  items h !! x = Some p →
  view (removeOne h x) x = (None, itemsAdd h !! x, Some p).
Proof.
  intros Hx. unfold removeOne, releaseHost, view. rewrite Hx.
  destruct (sslPassthrough (deref h p)); simpl;
    by rewrite lookup_delete_eq, lookup_insert_eq.
Qed.

Lemma view_inv h k i a d :
  view h k = (i, a, d) →
  items h !! k = i ∧ itemsAdd h !! k = a ∧ itemsDel h !! k = d.
Proof. unfold view. intros [= -> -> ->]. done. Qed.

Lemma view_items h1 h2 k : view h1 k = view h2 k → items h1 !! k = items h2 !! k.
Proof. unfold view. congruence. Qed.

Lemma view_itemsAdd h1 h2 k :
  view h1 k = view h2 k → itemsAdd h1 !! k = itemsAdd h2 !! k.
Proof. unfold view. congruence. Qed.

Lemma view_itemsDel h1 h2 k :
  view h1 k = view h2 k → itemsDel h1 !! k = itemsDel h2 !! k.
Proof. unfold view. congruence. Qed.

Lemma RemoveAll_view hostnames h k :
  view (RemoveAll hostnames h) k =
  if decide (k ∈ hostnames) then
    match items h !! k with
    | Some p => (None, itemsAdd h !! k, Some p)
    | None => view h k
    end
  else view h k.
Proof.
  unfold RemoveAll. revert h.
  induction hostnames as [|n l IH]; intros h; cbn [fold_left].
  - rewrite decide_False; [done|]. apply not_elem_of_nil.
  - destruct (decide (n = k)) as [->|Hne].
    + rewrite (decide_True (P := k ∈ k :: l)) by apply list_elem_of_here.
      destruct (items h !! k) as [p|] eqn:E.
      * pose proof (removeOne_view_present h k p E) as Hv.
        pose proof (RemoveAll_absent_view l (removeOne h k) k) as Hl.
        unfold RemoveAll in Hl. rewrite Hl; [done|].
        by apply view_inv in Hv as (? & _ & _).
      * rewrite removeOne_absent by done. rewrite IH, E.
        by destruct (decide (k ∈ l)).
    + pose proof (removeOne_view_ne h n k Hne) as Hv.
      rewrite IH. rewrite (view_items _ _ _ Hv), (view_itemsAdd _ _ _ Hv), Hv.
      destruct (decide (k ∈ l)) as [Hin|Hnin].
      * rewrite decide_True; [done|]. by apply list_elem_of_further.
      * rewrite decide_False; [done|].
        rewrite elem_of_cons. intros [->|?]; done.
Qed.

Lemma RemoveAll_itemsAdd hostnames h :
  itemsAdd (RemoveAll hostnames h) = itemsAdd h.
Proof.
  apply map_eq. intros n.
  pose proof (RemoveAll_view hostnames h n) as Hv.
  destruct (decide (n ∈ hostnames)); [destruct (items h !! n)|].
  - by apply view_inv in Hv as (_ & ? & _).
  - by apply view_itemsAdd.
  - by apply view_itemsAdd.
Qed.

(** X7: what RemoveAll does to each hostname.  A hostname of the list that
    [items] holds leaves [items] and is recorded in [itemsDel] with the Host
    that [items] held; a hostname that is not in the list, or that [items]
    does not hold, keeps what all three maps record for it; [itemsAdd], the
    Host objects and hasCommit are never changed.  Naming a hostname twice
    or calling RemoveAll again with the same list changes nothing more. *)
Theorem RemoveAll_spec (hostnames : list string) (h : Hosts) (k : string) :
  view (RemoveAll hostnames h) k =
    (if decide (k ∈ hostnames) then
       match items h !! k with
       | Some p => (None, itemsAdd h !! k, Some p)
       | None => view h k
       end
     else view h k) ∧
  itemsAdd (RemoveAll hostnames h) = itemsAdd h ∧
  store (RemoveAll hostnames h) = store h ∧
  hasCommit (RemoveAll hostnames h) = hasCommit h ∧
  RemoveAll hostnames (RemoveAll hostnames h) = RemoveAll hostnames h ∧
  RemoveAll (hostnames ++ hostnames) h = RemoveAll hostnames h.
Proof.
  assert (RemoveAll hostnames (RemoveAll hostnames h) = RemoveAll hostnames h)
    as Hidem.
  { apply RemoveAll_all_absent. intros n Hn.
    pose proof (RemoveAll_view hostnames h n) as Hv.
    rewrite decide_True in Hv by done.
    destruct (items h !! n) as [p|] eqn:E.
    - by apply view_inv in Hv as (? & _ & _).
    - rewrite (view_items _ _ _ Hv). exact E. }
  split_and!.
  - apply RemoveAll_view.
  - apply RemoveAll_itemsAdd.
  - apply RemoveAll_store.
  - apply RemoveAll_hasCommit.
  - exact Hidem.
  - unfold RemoveAll in *. by rewrite fold_left_app.
Qed.

(** ** Shrink *)

(** what Shrink records under one hostname *)
Lemma Shrink_view (h : Hosts) (k : string) :
  view (Shrink h) k =
  match itemsAdd h !! k, itemsDel h !! k with
  | Some add, Some del =>
      if DeepEqual h add del then (Some del, None, None) else view h k
  | _, _ => view h k
  end.
Proof.
  destruct (itemsDel h !! k) as [d|] eqn:Ed.
  - destruct (itemsAdd h !! k) as [a|] eqn:Ea.
    + destruct (DeepEqual h a d) eqn:E.
      * by apply (Shrink_view_cancel h k a d).
      * by apply (Shrink_view_keep h k a d).
    + rewrite (Shrink_view_del h k d Ed). unfold shrinkOne. by rewrite Ea.
  - rewrite (Shrink_view_nodel h k Ed). by destruct (itemsAdd h !! k).
Qed.

(** X8: what Shrink does to each hostname.  A hostname that is in [itemsAdd]
    and in [itemsDel] with two Hosts that DeepEqual accepts is taken out of
    both and bound in [items] to the Host of [itemsDel]; for every other
    hostname the three maps keep what they record. *)
Theorem Shrink_spec (h : Hosts) (k : string) :
  view (Shrink h) k =
  match itemsAdd h !! k, itemsDel h !! k with
  | Some add, Some del =>
      if DeepEqual h add del then (Some del, None, None) else view h k
  | _, _ => view h k
  end.
Proof.
  destruct (itemsDel h !! k) as [d|] eqn:Ed.
  - destruct (itemsAdd h !! k) as [a|] eqn:Ea.
    + destruct (DeepEqual h a d) eqn:E.
      * by apply (Shrink_view_cancel h k a d).
      * by apply (Shrink_view_keep h k a d).
    + rewrite (Shrink_view_del h k d Ed). unfold shrinkOne. by rewrite Ea.
  - rewrite (Shrink_view_nodel h k Ed). by destruct (itemsAdd h !! k).
Qed.

Lemma Changed_false_iff h :
  Changed h = false ↔ itemsAdd h = ∅ ∧ itemsDel h = ∅.
Proof.
  unfold Changed. rewrite orb_false_iff, !Z.ltb_ge.
  rewrite <- !map_size_empty_iff. lia.
Qed.

Lemma Shrink_nothing_to_cancel h :
  itemsAdd h = ∅ ∨ itemsDel h = ∅ → Shrink h = h.
Proof.
  intros Hempty. apply Hosts_eq; try apply ShrinkIn_frame.
  intros k. rewrite Shrink_view.
  destruct Hempty as [-> | ->]; rewrite lookup_empty; [done|].
  by destruct (itemsAdd h !! k).
Qed.

(** X9: Shrink only cancels.  It leaves the Host objects, the counter and
    hasCommit as they are, adds nothing to [itemsAdd] or [itemsDel], removes
    no hostname from [items], does nothing when one of the change maps is
    empty, and never makes Changed true. *)
Theorem Shrink_only_cancels (h : Hosts) :
  (store (Shrink h) = store h ∧
   sslPassthroughCount (Shrink h) = sslPassthroughCount h ∧
   hasCommit (Shrink h) = hasCommit h) ∧
  itemsAdd (Shrink h) ⊆ itemsAdd h ∧
  itemsDel (Shrink h) ⊆ itemsDel h ∧
  dom (items h) ⊆ dom (items (Shrink h)) ∧
  (itemsAdd h = ∅ ∨ itemsDel h = ∅ → Shrink h = h) ∧
  (Changed (Shrink h) = true → Changed h = true).
Proof.
  assert (∀ k, (∀ x, itemsAdd (Shrink h) !! k = Some x → itemsAdd h !! k = Some x) ∧
               (∀ x, itemsDel (Shrink h) !! k = Some x → itemsDel h !! k = Some x) ∧
               (is_Some (items h !! k) → is_Some (items (Shrink h) !! k)))
    as Hk.
  { intros k. pose proof (Shrink_view h k) as Hv.
    destruct (itemsAdd h !! k) as [a|] eqn:Ea;
      destruct (itemsDel h !! k) as [d|] eqn:Ed;
      try destruct (DeepEqual h a d);
      apply view_inv in Hv as (Hi & Ha & Hd); rewrite Hi, Ha, Hd;
      split_and!; intros; simplify_eq; eauto. }
  split_and!.
  - apply ShrinkIn_frame.
  - apply ShrinkIn_frame.
  - apply ShrinkIn_frame.
  - apply map_subseteq_spec. intros k x. apply Hk.
  - apply map_subseteq_spec. intros k x. apply Hk.
  - intros k. rewrite !elem_of_dom. apply Hk.
  - apply Shrink_nothing_to_cancel.
  - intros Hc. destruct (Changed h) eqn:E; [done|].
    apply Changed_false_iff in E as [Ea Ed].
    rewrite Shrink_nothing_to_cancel in Hc by (by left).
    rewrite Changed_false in Hc; done.
Qed.

Lemma Shrink_only_cancels_witness :
  let h := (AcquireHost "x" CreateHosts).1 in
  Shrink h = h ∧ Shrink (Commit h) = Commit h ∧
  Changed (Shrink (Commit h)) = false.
Proof.
  intros h.
  destruct (Shrink_only_cancels h) as (_ & _ & _ & _ & H5 & _).
  destruct (Shrink_only_cancels (Commit h)) as (_ & _ & _ & _ & H5' & H6).
  refine (conj (H5 (or_intror eq_refl)) (conj (H5' (or_introl eq_refl)) _)).
  destruct (Changed (Shrink (Commit h))) eqn:E; [|reflexivity].
  discriminate (H6 eq_refl).
Defined.

(** X10: Shrink is idempotent: a second Shrink finds nothing to cancel. *)
Theorem Shrink_idempotent (h : Hosts) : Shrink (Shrink h) = Shrink h.
Proof.
  assert (store (Shrink h) = store h) as Hs by apply ShrinkIn_frame.
  apply Hosts_eq; try apply ShrinkIn_frame.
  intros k. rewrite (Shrink_view (Shrink h) k).
  pose proof (Shrink_view h k) as Hv.
  destruct (itemsAdd h !! k) as [a|] eqn:Ea;
    destruct (itemsDel h !! k) as [d|] eqn:Ed;
    try destruct (DeepEqual h a d) eqn:E;
    try (apply view_inv in Hv as (Hi & Ha' & Hd'); by rewrite Ha', ?Hd').
  - pose proof Hv as Hv'. unfold view in Hv'.
    injection Hv' as _ Ha' Hd'. rewrite Ha', Hd', Ea, Ed.
    by rewrite (DeepEqual_store (Shrink h) h), E.
  - pose proof Hv as Hv'. unfold view in Hv'.
    injection Hv' as _ Ha' Hd'. rewrite Ha', Hd', Ea, Ed. done.
  - pose proof Hv as Hv'. unfold view in Hv'.
    injection Hv' as _ Ha' Hd'. rewrite Ha', Ea. done.
  - pose proof Hv as Hv'. unfold view in Hv'.
    injection Hv' as _ Ha' Hd'. rewrite Ha', Ea. done.
Qed.

(** X11: the result of Shrink does not depend on the order in which the
    range visits [itemsDel]: every order of its entries gives the same
    registry. *)
Theorem Shrink_order_independent (order : list (string * addr)) (h : Hosts) :
  order ≡ₚ map_to_list (itemsDel h) →
  ShrinkIn order h = Shrink h ∧ ShrinkIn (reverse order) h = Shrink h.
Proof.
  intros Hp. split; apply ShrinkIn_order; [done|].
  by rewrite reverse_Permutation.
Qed.

(** "a" and "b" are committed, removed and acquired again; "b" gets a path,
    "a" does not: the pair of "a" is cancelled in either order. *)
Lemma Shrink_order_independent_witness :
  let h0 := Commit (AcquireHost "b" (AcquireHost "a" CreateHosts).1).1 in
  let h1 := (reparse "b" [HAddPath None "/" "prefix"] (reparse "a" [] h0).1).1 in
  let order := reverse (map_to_list (itemsDel h1)) in
  length order = 2%nat ∧
  ShrinkIn order h1 = Shrink h1 ∧
  view (ShrinkIn order h1) "a" = (Some 0%nat, None, None) ∧
  view (ShrinkIn order h1) "b" = (Some 3%nat, Some 3%nat, Some 1%nat).
Proof.
  intros h0 h1 order.
  destruct (Shrink_order_independent order h1) as [H1 _].
  { apply reverse_Permutation. }
  refine (conj eq_refl (conj H1 _)). rewrite H1. split; reflexivity.
Defined.

(** ** Invariants of every registry that the operations build *)

Lemma insert_deref_id h p : <[p := deref h p]> (store h) = store h.
Proof.
  destruct (decide (p < length (store h))%nat) as [Hlt|Hge].
  - apply list_insert_id. by apply deref_lookup.
  - apply list_insert_ge. lia.
Qed.

(** a call on a Host writes at most the object behind the pointer, keeps
    its Hostname and either keeps its paths or is an AddPath *)
Lemma hostop_run_store p h o :
  ∃ host', store (hostop_run p h o) = <[p := host']> (store h) ∧
           Hostname host' = Hostname (deref h p) ∧
           (Paths host' = Paths (deref h p) ∨
            ∃ b path m, host' = (AddPath_host b path m (deref h p)).1).
Proof.
  destruct o as [b path m|v|tls|b]; simpl.
  - exists (AddPath_host b path m (deref h p)).1. unfold AddPath.
    pose proof (AddPath_host_frame b path m (deref h p)) as (Hn & _).
    destruct (AddPath_host b path m (deref h p)) as [host' b'] eqn:E.
    simpl in *. split_and!; [done|done|]. right. exists b, path, m. by rewrite E.
  - unfold SetSSLPassthrough. case_bool_decide as E.
    + exists (deref h p). by rewrite insert_deref_id; auto.
    + eexists. split; [by destruct v|]. simpl. auto.
  - eexists. split; [done|]. simpl. auto.
  - eexists. split; [done|]. simpl. auto.
Qed.

Lemma hostop_run_Hostname p h o q :
  length (store (hostop_run p h o)) = length (store h) ∧
  Hostname (deref (hostop_run p h o) q) = Hostname (deref h q).
Proof.
  destruct (hostop_run_store p h o) as (host' & Hs & Hn & _).
  rewrite Hs, length_insert. split; [done|].
  unfold deref. rewrite Hs.
  change (Hostname (deref (set_store <[p := host']> h) q) = Hostname (deref h q)).
  rewrite deref_insert_cases. case_decide as Hq; [|done].
  destruct Hq as [-> _]. done.
Qed.

Lemma entry_ok_mono h h' k p :
  (length (store h) ≤ length (store h'))%nat →
  (∀ q, (q < length (store h))%nat →
        Hostname (deref h' q) = Hostname (deref h q)) →
  entry_ok h k p → entry_ok h' k p.
Proof.
  intros Hlen Hname [Hlt Hk]. split; [lia|]. by rewrite Hname.
Qed.

Lemma maps_wf_AcquireHost x h : maps_wf h → maps_wf (AcquireHost x h).1.
Proof.
  intros Hw. destruct (FindHost x h) as [p|] eqn:E.
  - by rewrite (AcquireHost_found x h p E).
  - destruct (AcquireHost_new x h E) as (Hp & Hd & Hf & Ha & (Hdl & _) & Hq & _).
    set (r := AcquireHost x h) in *.
    assert (length (store r.1) = S (length (store h))) as Hlen.
    { unfold r, AcquireHost. rewrite E. simpl. rewrite length_app. simpl. lia. }
    assert (entry_ok r.1 x r.2) as Hnew.
    { split; [lia|]. by rewrite Hd. }
    assert (∀ k q, entry_ok h k q → entry_ok r.1 k q) as Hold.
    { intros k q. apply entry_ok_mono; [lia|]. intros q' Hq'. by rewrite Hq. }
    intros k q [Hi|[Hi|Hi]].
    + specialize (Hf k). unfold FindHost in Hf. rewrite Hf in Hi.
      case_decide; [by simplify_eq|]. apply Hold, Hw. by left.
    + rewrite Ha in Hi. apply lookup_insert_Some in Hi as [[<- <-]|[_ Hi]];
        [done|]. apply Hold, Hw. auto.
    + rewrite Hdl in Hi. apply Hold, Hw. auto.
Qed.

Lemma maps_wf_RemoveAll hostnames h : maps_wf h → maps_wf (RemoveAll hostnames h).
Proof.
  intros Hw k p Hin.
  assert (entry_ok h k p) as [Hlt Hn]; [|split; unfold deref;
                                         by rewrite RemoveAll_store].
  pose proof (RemoveAll_view hostnames h k) as Hv.
  pose proof (RemoveAll_itemsAdd hostnames h) as Ha.
  destruct Hin as [Hi|[Hi|Hi]].
  - destruct (decide (k ∈ hostnames)); [destruct (items h !! k) eqn:E|];
      apply view_inv in Hv as (Hvi & _ & _);
      rewrite Hvi in Hi; try done; apply Hw; left; congruence.
  - rewrite Ha in Hi. apply Hw. auto.
  - destruct (decide (k ∈ hostnames)); [destruct (items h !! k) eqn:E|];
      apply view_inv in Hv as (_ & _ & Hvd); rewrite Hvd in Hi.
    + apply Hw. left. congruence.
    + apply Hw. auto.
    + apply Hw. auto.
Qed.

Lemma maps_wf_Shrink h : maps_wf h → maps_wf (Shrink h).
Proof.
  intros Hw k p Hin.
  assert (entry_ok h k p) as [Hlt Hn]; [|split; unfold deref;
                                         by rewrite Shrink_store].
  pose proof (Shrink_view h k) as Hv.
  destruct (itemsAdd h !! k) as [a|] eqn:Ea;
    destruct (itemsDel h !! k) as [d|] eqn:Ed;
    try destruct (DeepEqual h a d);
    apply view_inv in Hv as (Hi & Ha & Hd); rewrite Hi, Ha, Hd in Hin;
    apply Hw; destruct Hin as [?|[?|?]]; simplify_eq; auto.
Qed.

Lemma maps_wf_Commit h : maps_wf h → maps_wf (Commit h).
Proof.
  intros Hw k p [Hi|[Hi|Hi]]; simpl in Hi.
  - apply (Hw k p). by left.
  - by rewrite lookup_empty in Hi.
  - by rewrite lookup_empty in Hi.
Qed.

Lemma maps_wf_hostop p o h : maps_wf h → maps_wf (hostop_run p h o).
Proof.
  intros Hw k q Hin.
  destruct (hostop_run_maps p h o) as (Hi & Ha & Hd).
  rewrite Hi, Ha, Hd in Hin. destruct (Hw k q Hin) as [Hlt Hn].
  destruct (hostop_run_Hostname p h o q) as [Hlen Hname].
  split; [by rewrite Hlen|by rewrite Hname].
Qed.

Lemma maps_wf_run ops h : maps_wf h → maps_wf (run ops h).
Proof.
  unfold run. revert h.
  induction ops as [|o l IH]; intros h Hw; cbn [fold_left]; [done|].
  apply IH. destruct o as [n|hs| | |p o]; simpl.
  - by apply maps_wf_AcquireHost.
  - by apply maps_wf_RemoveAll.
  - by apply maps_wf_Shrink.
  - by apply maps_wf_Commit.
  - by apply maps_wf_hostop.
Qed.

(** X12: in every registry built from CreateHosts by any sequence of calls
    (AcquireHost, RemoveAll, Shrink, Commit, AddPath, SetSSLPassthrough and
    writes of TLS and VarNamespace, through any pointers), every entry of
    [items], [itemsAdd] and [itemsDel] binds its hostname to an allocated
    Host whose Hostname is that hostname; so two hostnames of [items] never
    share a Host, and FindHost returns a Host of the name asked for. *)
Theorem registry_keys_are_hostnames (ops : list op) (k k' : string) (p : addr) :
  let h := run ops CreateHosts in
  maps_wf h ∧
  (FindHost k h = Some p → Hostname (deref h p) = k) ∧
  (items h !! k = Some p → items h !! k' = Some p → k = k').
Proof.
  intros h.
  assert (maps_wf h) as Hw.
  { apply maps_wf_run. intros k0 p0 [H|[H|H]]; simpl in H;
      by rewrite lookup_empty in H. }
  split_and!; [done| |].
  - intros Hf. apply (Hw k p). by left.
  - intros H1 H2. destruct (Hw k p) as [_ <-]; [by left|].
    destruct (Hw k' p) as [_ <-]; [by left|]. done.
Qed.

Lemma registry_keys_are_hostnames_witness :
  let h := run [OpAcquireHost "a"; OpAcquireHost "b"; OpRemoveAll ["a"];
                OpAcquireHost "a"; OpShrink] CreateHosts in
  FindHost "a" h = Some 0%nat ∧ Hostname (deref h 0%nat) = "a".
Proof.
  intros h.
  destruct (registry_keys_are_hostnames
              [OpAcquireHost "a"; OpAcquireHost "b"; OpRemoveAll ["a"];
               OpAcquireHost "a"; OpShrink] "a" "a" 0%nat) as (_ & H & _).
  exact (conj eq_refl (H eq_refl)).
Defined.

(** ** The path list of every Host of the registry *)

Lemma descending_link_sorted (hostname : string) (l : list HostPath) :
  Forall (λ p, hp_Link p = CreatePathLink hostname (hp_Path p)) l →
  descending l → link_sorted l.
Proof.
  unfold descending, link_sorted. intros Hl Hs.
  induction Hs as [|x l Hs IH Hx]; [constructor|].
  apply Forall_cons in Hl as [Hlx Hl]. constructor; [by apply IH|].
  rewrite Forall_forall in Hx, Hl |- *. intros y Hy.
  rewrite Hlx, (Hl y Hy). rewrite Less_same_hostname by done.
  apply str_lt_le. by apply Hx.
Qed.

Lemma host_ok_zero : host_ok zeroHost.
Proof. split_and!; constructor. Qed.

Lemma host_ok_same_paths host host' :
  Hostname host' = Hostname host → Paths host' = Paths host →
  host_ok host → host_ok host'.
Proof.
  intros Hn Hp (H1 & H2 & H3). unfold host_ok, links_ok. by rewrite Hn, Hp.
Qed.

Lemma host_ok_AddPath_host backend path match_ host :
  links_ok host → host_ok (AddPath_host backend path match_ host).1.
Proof.
  intros Hl.
  pose proof (AddPath_host_frame backend path match_ host) as (Hn & _).
  pose proof (AddPath_host_Permutation backend path match_ host) as HP.
  pose proof (AddPath_host_descending backend path match_ host) as HD.
  assert (links_ok (AddPath_host backend path match_ host).1) as Hl'.
  { unfold links_ok. rewrite Hn, HP. apply Forall_app. split; [done|].
    by constructor. }
  split_and!; [done|done|].
  by apply (descending_link_sorted
              (Hostname (AddPath_host backend path match_ host).1)).
Qed.

Lemma hosts_ok_deref h p : Forall host_ok (store h) → host_ok (deref h p).
Proof.
  intros Hall. destruct (decide (p < length (store h))%nat) as [Hlt|Hge].
  - apply (Forall_lookup_1 _ _ _ _ Hall (deref_lookup h p Hlt)).
  - unfold deref. rewrite list_lookup_total_alt, lookup_ge_None_2 by lia.
    apply host_ok_zero.
Qed.

Lemma hosts_ok_hostop p o h :
  Forall host_ok (store h) → Forall host_ok (store (hostop_run p h o)).
Proof.
  intros Hall. pose proof (hosts_ok_deref h p Hall) as Hp.
  destruct (hostop_run_store p h o) as (host' & -> & Hn & [Hs|(b & path & m & ->)]);
    apply Forall_insert; try done.
  - by apply (host_ok_same_paths (deref h p)).
  - apply host_ok_AddPath_host, Hp.
Qed.

Lemma hosts_ok_run ops h :
  Forall host_ok (store h) → Forall host_ok (store (run ops h)).
Proof.
  unfold run. revert h.
  induction ops as [|o l IH]; intros h Hall; cbn [fold_left]; [done|].
  apply IH. destruct o as [n|hs| | |p o]; simpl.
  - unfold AcquireHost. destruct (FindHost n h); [done|]. simpl.
    apply Forall_app. split; [done|]. repeat constructor.
  - by rewrite RemoveAll_store.
  - by rewrite Shrink_store.
  - done.
  - by apply hosts_ok_hostop.
Qed.

(** X13: whatever the sequence of calls on a registry built from CreateHosts,
    the path list of every Host of the registry, through any pointer, is
    sorted descending by path string, every path carries the link
    (Hostname of its Host, its path string), and the paths are in the order
    of PathLink.Less with reversePath: no link is Less than the link of an
    earlier path. *)
Theorem registry_paths_sorted (ops : list op) (p : addr) :
  let host := deref (run ops CreateHosts) p in
  descending (Paths host) ∧ links_ok host ∧ link_sorted (Paths host).
Proof.
  apply hosts_ok_deref, hosts_ok_run. constructor.
Qed.

(** ** The counter and HasSSLPassthrough *)

Lemma registry_ok_run ops h :
  admissible_run ops h → registry_ok h → registry_ok (run ops h).
Proof.
  unfold run. revert h.
  induction ops as [|o l IH]; intros h Ha Hok; cbn [fold_left]; [done|].
  destruct Ha as [Ho Hl]. apply IH; [done|]. by apply registry_ok_op.
Qed.

Lemma count_flagged_pos f (m : gmap string addr) :
  (0 < count_flagged f m)%nat ↔ ∃ k v, m !! k = Some v ∧ f v = true.
Proof.
  unfold count_flagged. split.
  - intros Hpos.
    destruct (filter (λ e : string * addr, f e.2 = true) (map_to_list m))
      as [|[k v] l] eqn:E; [simpl in Hpos; lia|].
    assert ((k, v) ∈ filter (λ e : string * addr, f e.2 = true) (map_to_list m))
      as Hin by (rewrite E; apply list_elem_of_here).
    apply list_elem_of_filter in Hin as [Hf Hin].
    apply elem_of_map_to_list in Hin. by exists k, v.
  - intros (k & v & Hk & Hf).
    assert ((k, v) ∈ filter (λ e : string * addr, f e.2 = true) (map_to_list m))
      as Hin.
    { apply list_elem_of_filter. split; [done|]. by apply elem_of_map_to_list. }
    destruct (filter (λ e : string * addr, f e.2 = true) (map_to_list m));
      [by apply elem_of_nil in Hin|simpl; lia].
Qed.

(** X14: along every sequence of calls on a fresh registry in which
    SetSSLPassthrough is called on Hosts that [items] holds and Shrink is
    called only while no hostname that the cycle acquired has been removed
    again, the counter is the number of Hosts of [items] with the flag set;
    it is never negative, and HasSSLPassthrough is true exactly when [items]
    holds a Host with the flag set. *)
Theorem HasSSLPassthrough_exact (ops : list op) :
  admissible_run ops CreateHosts →
  let h := run ops CreateHosts in
  sslPassthroughCount h = Z.of_nat (passthroughHosts h) ∧
  (0 ≤ sslPassthroughCount h)%Z ∧
  (HasSSLPassthrough h = true ↔
   ∃ k p, items h !! k = Some p ∧ SSLPassthrough (deref h p) = true).
Proof.
  intros Ha h.
  destruct (registry_ok_run ops CreateHosts Ha registry_ok_CreateHosts)
    as (Hc & _ & _).
  fold h in Hc. unfold counter_ok in Hc. split_and!; [done|lia|].
  unfold HasSSLPassthrough. rewrite Hc, passthroughHosts_count.
  rewrite Z.ltb_lt, <- (count_flagged_pos (flag h) (items h)). lia.
Qed.

(** Two hosts; "a" is flagged, removed, acquired again and flagged; then the
    flag of "a" is cleared. *)
Lemma HasSSLPassthrough_exact_witness :
  let ops := [OpAcquireHost "a"; OpAcquireHost "b";
              OpHost 0 (HSetSSLPassthrough true); OpCommit;
              OpRemoveAll ["a"]; OpAcquireHost "a";
              OpHost 2 (HSetSSLPassthrough true)] in
  let h := run ops CreateHosts in
  let h' := run (ops ++ [OpHost 2 (HSetSSLPassthrough false)]) CreateHosts in
  (sslPassthroughCount h = 1%Z ∧ HasSSLPassthrough h = true) ∧
  (sslPassthroughCount h' = 0%Z ∧
   ¬ ∃ k p, items h' !! k = Some p ∧ SSLPassthrough (deref h' p) = true).
Proof.
  intros ops h h'.
  assert (admissible_run ops CreateHosts) as Ha.
  { cbn [ops admissible_run admissible]. split_and!; try done; by exists "a". }
  assert (admissible_run (ops ++ [OpHost 2 (HSetSSLPassthrough false)])
                         CreateHosts) as Ha'.
  { cbn [ops app admissible_run admissible].
    split_and!; try done; by exists "a". }
  destruct (HasSSLPassthrough_exact ops Ha) as (_ & _ & H3).
  destruct (HasSSLPassthrough_exact _ Ha') as (_ & _ & H3').
  fold h in H3. fold h' in H3'.
  refine (conj (conj eq_refl eq_refl) (conj eq_refl _)).
  intros Hex. apply H3' in Hex. discriminate Hex.
Defined.

(** ** BuildSortedItems on a registry that the operations built *)

Lemma hostname_le_NoDup_strict h (l : list addr) :
  StronglySorted (hostname_le h) l →
  NoDup ((λ p, Hostname (deref h p)) <$> l) →
  StronglySorted (hostname_lt h) l.
Proof.
  induction 1 as [|x l Hl IH Hx]; intros Hnd; [constructor|].
  rewrite fmap_cons in Hnd. apply NoDup_cons in Hnd as [Hnotin Hnd].
  constructor; [by apply IH|].
  rewrite Forall_forall in Hx |- *. intros y Hy.
  apply str_lt_iff. split; [by apply Hx|].
  intros Heq. apply Hnotin. rewrite Heq.
  by apply (list_elem_of_fmap_2 (λ p, Hostname (deref h p))).
Qed.

(** the Hostnames of the entries of a map of a well-formed registry are the
    keys *)
Lemma entries_hostnames h (es : list (string * addr)) :
  Forall (λ e, Hostname (deref h e.2) = e.1) es →
  (λ p, Hostname (deref h p)) <$> es.*2 = es.*1.
Proof.
  induction 1 as [|[k p] es He Hes IH]; [done|].
  rewrite !fmap_cons. cbn [fst snd] in He |- *. by rewrite He, IH.
Qed.

(** X15: BuildSortedItems on a registry built from CreateHosts by any
    sequence of calls.  The result does not depend on the order in which the
    range visits [items]; a non-nil result is strictly ascending by
    Hostname and names no Host twice; each of its Hosts is the one that
    [items] holds under the Host's own Hostname, and none of them has the
    DefaultHost name.  The Host that DefaultHost() returns has that name
    and is not in the result. *)
Theorem BuildSortedItems_on_registry (DefaultHost : string) (ops : list op)
    (order : list (string * addr)) :
  let h := run ops CreateHosts in
  order ≡ₚ map_to_list (items h) →
  BuildSortedItemsIn DefaultHost order h = BuildSortedItems DefaultHost h ∧
  (∀ l, BuildSortedItems DefaultHost h = Some l →
        StronglySorted (hostname_lt h) l ∧ NoDup l ∧
        ∀ p, p ∈ l → Hostname (deref h p) ≠ DefaultHost ∧
                     items h !! Hostname (deref h p) = Some p) ∧
  (∀ d l, DefaultHostOf DefaultHost h = Some d →
          BuildSortedItems DefaultHost h = Some l →
          Hostname (deref h d) = DefaultHost ∧ d ∉ l).
Proof.
  intros h Horder.
  assert (maps_wf h) as Hw.
  { apply maps_wf_run. intros k0 p0 [H|[H|H]]; simpl in H;
      by rewrite lookup_empty in H. }
  assert (∀ l, l ≡ₚ (map_to_list (delete DefaultHost (items h))).*2 →
               (∀ p, p ∈ l ↔ ∃ k, k ≠ DefaultHost ∧ items h !! k = Some p) →
               NoDup ((λ p, Hostname (deref h p)) <$> l) ∧
               ∀ p, p ∈ l → Hostname (deref h p) ≠ DefaultHost ∧
                            items h !! Hostname (deref h p) = Some p) as Hl.
  { intros l HP Hmem. split.
    - rewrite HP, entries_hostnames; [apply NoDup_fst_map_to_list|].
      apply Forall_forall. intros [k p] Hin. simpl.
      apply elem_of_map_to_list, lookup_delete_Some in Hin as [_ Hk].
      apply (Hw k p). by left.
    - intros p Hp. apply Hmem in Hp as (k & Hne & Hk).
      destruct (Hw k p) as [_ Hn]; [by left|]. by rewrite Hn. }
  pose proof (BuildSortedItemsIn_spec DefaultHost h order Horder) as H1.
  pose proof (BuildSortedItemsIn_spec DefaultHost h (map_to_list (items h))
                (Permutation_refl _)) as H2.
  change (BuildSortedItemsIn DefaultHost (map_to_list (items h)) h)
    with (BuildSortedItems DefaultHost h) in H2.
  split; [|split].
  - destruct (BuildSortedItemsIn DefaultHost order h) as [l1|],
             (BuildSortedItems DefaultHost h) as [l2|]; try done.
    + destruct H1 as (_ & P1 & M1 & S1), H2 as (_ & P2 & M2 & S2).
      f_equal. apply (StronglySorted_unique_strong (hostname_le h));
        [|done|done|by rewrite P1, P2].
      intros x1 x2 Hx1 Hx2 R12 R21.
      destruct (Hl l1 P1 M1) as [_ Hk1]. destruct (Hl l2 P2 M2) as [_ Hk2].
      destruct (Hk1 x1 Hx1) as [_ E1]. destruct (Hk2 x2 Hx2) as [_ E2].
      assert (Hostname (deref h x1) = Hostname (deref h x2)) as Heq
        by (by apply (anti_symm String.le)).
      rewrite Heq in E1. congruence.
    + destruct H1 as (N1 & P1 & _). rewrite H2, map_to_list_empty in P1.
      by apply Permutation_nil_r in P1.
    + destruct H2 as (N2 & P2 & _). rewrite H1, map_to_list_empty in P2.
      by apply Permutation_nil_r in P2.
  - intros l El. rewrite El in H2. destruct H2 as (_ & P2 & M2 & S2).
    destruct (Hl l P2 M2) as [Hnd Hk]. split_and!; [|by eapply NoDup_fmap_1|done].
    by apply hostname_le_NoDup_strict.
  - intros d l Hd El. rewrite El in H2. destruct H2 as (_ & P2 & M2 & S2).
    destruct (Hl l P2 M2) as [_ Hk].
    destruct (Hw DefaultHost d) as [_ Hn]; [by left|].
    split; [done|]. intros Hin. by destruct (Hk d Hin).
Qed.

(** "<default>" stands for the DefaultHost constant; the entries of [items]
    are visited in the reverse of the order of the embedding. *)
Lemma BuildSortedItems_on_registry_witness :
  let ops := [OpAcquireHost "b.com"; OpAcquireHost "<default>";
              OpAcquireHost "a.com"] in
  let h := run ops CreateHosts in
  BuildSortedItemsIn "<default>" (reverse (map_to_list (items h))) h
    = Some [2%nat; 0%nat] ∧
  BuildSortedItems "<default>" h = Some [2%nat; 0%nat] ∧
  StronglySorted (hostname_lt h) [2%nat; 0%nat] ∧
  DefaultHostOf "<default>" h = Some 1%nat ∧
  Hostname (deref h 1%nat) = "<default>".
Proof.
  intros ops h.
  destruct (BuildSortedItems_on_registry "<default>" ops
              (reverse (map_to_list (items h)))) as (H1 & H2 & H3).
  { apply reverse_Permutation. }
  fold h in H1, H2, H3.
  assert (BuildSortedItems "<default>" h = Some [2%nat; 0%nat]) as E
    by reflexivity.
  assert (DefaultHostOf "<default>" h = Some 1%nat) as D by reflexivity.
  refine (conj (eq_trans H1 E) (conj E (conj (proj1 (H2 _ E))
            (conj D (proj1 (H3 _ _ D E)))))).
Defined.

(** ** HasVarNamespace *)

Lemma existsb_elem_of {A} (f : A → bool) (l : list A) :
  existsb f l = true ↔ ∃ x, x ∈ l ∧ f x = true.
Proof.
  rewrite existsb_exists. split; intros (x & Hin & Hf); exists x;
    (split; [by apply list_elem_of_In|done]).
Qed.

(** X16: HasVarNamespace is true exactly when [items] holds a Host whose
    VarNamespace flag is set, whatever the order of the range.  It is false
    on a fresh registry, it does not look at [itemsAdd] or [itemsDel]
    (Commit does not change it), and RemoveAll never turns it on. *)
Theorem HasVarNamespace_spec (h : Hosts) (hostnames : list string) :
  (HasVarNamespace h = true ↔
   ∃ k p, items h !! k = Some p ∧ VarNamespace (deref h p) = true) ∧
  HasVarNamespace CreateHosts = false ∧
  HasVarNamespace (Commit h) = HasVarNamespace h ∧
  (HasVarNamespace (RemoveAll hostnames h) = true → HasVarNamespace h = true).
Proof.
  assert (∀ h', HasVarNamespace h' = true ↔
                ∃ k p, items h' !! k = Some p ∧ VarNamespace (deref h' p) = true)
    as Hiff.
  { intros h'. unfold HasVarNamespace. rewrite existsb_elem_of. split.
    - intros ([k p] & Hin & Hf). apply elem_of_map_to_list in Hin.
      by exists k, p.
    - intros (k & p & Hk & Hf). exists (k, p). split; [|done].
      by apply elem_of_map_to_list. }
  split_and!; [apply Hiff|done|done|].
  rewrite !Hiff. intros (k & p & Hk & Hf). exists k, p.
  pose proof (RemoveAll_view hostnames h k) as Hv.
  pose proof (RemoveAll_store hostnames h) as Hs.
  split.
  - destruct (decide (k ∈ hostnames)); [destruct (items h !! k) eqn:E|];
      apply view_inv in Hv as (Hi & _ & _); rewrite Hi in Hk; congruence.
  - unfold deref in Hf |- *. by rewrite <- Hs.
Qed.

Lemma HasVarNamespace_spec_witness :
  let h0 := (AcquireHost "b" (AcquireHost "a" CreateHosts).1).1 in
  let h := WriteVarNamespace 1 true h0 in
  HasVarNamespace h0 = false ∧ HasVarNamespace h = true ∧
  HasVarNamespace (RemoveAll ["b"] h) = false.
Proof.
  intros h0 h.
  destruct (HasVarNamespace_spec h ["b"]) as (H1 & _ & _ & _).
  refine (conj eq_refl (conj (proj2 H1 _) eq_refl)).
  exists "b", 1%nat. split; reflexivity.
Defined.
